(** * Crow: [crow::multipart] (include/crow/multipart.h)

    A shallow embedding of the multipart parser and serializer of Crow:
    boundary discovery ([get_boundary]), body splitting ([parse_body]),
    section parsing ([parse_section], [parse_section_head]), quote trimming
    ([trim], [pad]) and serialization ([dump]).

    - [std::string] is modelled by [string], with [find], [substr] and
      [erase] as the standard library defines them; [substr] and [erase]
      throw [std::out_of_range] when the position lies beyond the end.
    - [size_t] is modelled by [N] with the 64-bit wrap-around written out,
      so that [std::string::npos + 2] is [1] exactly as in the compiled
      program.  The code never compares the result of a search with [npos]
      before it adds to it, except for the two searches for a semicolon
      followed by a space.
    - [std::unordered_map<std::string, std::string>] is modelled by
      [gmap string string]; the order in which [dump] visits a map is
      unspecified and is a parameter of the serializer.
    - A call returns a value, throws [std::out_of_range], or has undefined
      behaviour: the [outcome] type.
    - The loops are run by [while] with a bound on the number of rounds.
      The loops over the lines of a header block and over the parameters
      of a line always end within the length of their text
      ([parse_section_returns], [parse_params_total]); the loop of
      [parse_body] does not end on every body, so [parse_body] takes the
      bound as an argument and returns [None] when the loop has not ended
      within it. *)

From Stdlib Require Import NArith ZArith Ascii String Lia.
From stdpp Require Import base option list gmap strings.

Local Open Scope N_scope.

(** ** [size_t] arithmetic *)

Module SizeT.
Definition width : N := 64.
Definition modulus : N := 2 ^ width.
Definition wrap (n : N) : N := n mod modulus.
Definition max : N := modulus - 1.
Definition add (a b : N) : N := wrap (a + b).
(** [a - b] on [size_t], for [b <= modulus] *)
Definition sub (a b : N) : N := wrap (a + modulus - b).
(** conversion of an [int] to [size_t] *)
Definition of_int (z : Z) : N := Z.to_N (z mod Z.of_N modulus).
(** conversion of a 32-bit [unsigned] to [int] *)
Definition int_of_unsigned (u : N) : Z :=
  let w := Z.of_N (u mod 2 ^ 32) in
  if (w <? 2 ^ 31)%Z then w else (w - 2 ^ 32)%Z.
End SizeT.

Infix "+ₛ" := SizeT.add (at level 50, left associativity).
Infix "-ₛ" := SizeT.sub (at level 50, left associativity).

(** ** Results of a call: a value, a thrown [std::out_of_range], or
    undefined behaviour (an unchecked [operator[]] out of range). *)

Inductive outcome (A : Type) : Type :=
| Ok (a : A)
| OutOfRange
| Undefined.
Arguments Ok {A} a.
Arguments OutOfRange {A}.
Arguments Undefined {A}.

Definition bind {A B : Type} (x : outcome A) (f : A → outcome B) : outcome B :=
  match x with
  | Ok a => f a
  | OutOfRange => OutOfRange
  | Undefined => Undefined
  end.

Notation "x ←! e1 ; e2" := (bind e1 (λ x, e2))
  (at level 20, e1 at level 100, e2 at level 200, right associativity,
   format "'[v' x  ←!  e1 ; '/' e2 ']'").
Notation "' p ←! e1 ; e2" := (bind e1 (λ p, e2))
  (at level 20, p pattern, e1 at level 100, e2 at level 200,
   right associativity).

(** ** [std::string] *)

Module Str.
Definition npos : N := SizeT.max.

Definition size (s : string) : N := N.of_nat (String.length s).

Fixpoint take (n : nat) (s : string) : string :=
  match n, s with
  | S n', String c s' => String c (take n' s')
  | _, _ => EmptyString
  end.

Fixpoint drop (n : nat) (s : string) : string :=
  match n, s with
  | S n', String _ s' => drop n' s'
  | _, _ => s
  end.

Fixpoint starts_with (needle s : string) : bool :=
  match needle, s with
  | EmptyString, _ => true
  | String a needle', String b s' =>
      if Ascii.eqb a b then starts_with needle' s' else false
  | String _ _, EmptyString => false
  end.

(** index of the first occurrence of [needle] in [s] *)
Fixpoint first_occurrence (needle s : string) : option nat :=
  if starts_with needle s then Some O
  else match s with
       | EmptyString => None
       | String _ s' => S <$> first_occurrence needle s'
       end.

(** [s.find(needle)] *)
Definition find (s needle : string) : N :=
  match first_occurrence needle s with
  | Some i => N.of_nat i
  | None => npos
  end.

(** [s.substr(pos, len)]: throws when [pos > size()] *)
Definition substr (s : string) (pos len : N) : outcome string :=
  if size s <? pos then OutOfRange
  else
    let rlen := N.min len (size s - pos) in
    Ok (take (N.to_nat rlen) (drop (N.to_nat pos) s)).

(** [s.erase(pos, len)]: the string left in [s]; throws when [pos > size()] *)
Definition erase (s : string) (pos len : N) : outcome string :=
  if size s <? pos then OutOfRange
  else
    let rlen := N.min len (size s - pos) in
    Ok (take (N.to_nat pos) s +:+ drop (N.to_nat (pos + rlen)) s).

(** [s[i]] for [i <= size()]: the terminating null at [i = size()] *)
Definition at_ (s : string) (i : N) : ascii :=
  match String.get (N.to_nat i) s with
  | Some c => c
  | None => "000"%char
  end.

Definition empty (s : string) : bool :=
  match s with
  | EmptyString => true
  | _ => false
  end.

Definition of_char (c : ascii) : string := String c EmptyString.
End Str.

(** ** Constants *)

Definition dquote : ascii := "034"%char.

(** [const std::string dd = "--";] *)
Definition dd : string := "--".

(** Modelled from the spec: [crow::crlf] is declared outside this header (in
    Crow's common definitions); the specification fixes line termination to
    CRLF, carriage return followed by line feed. *)
Definition crlf : string := String "013"%char (String "010"%char EmptyString).

(** ** Data model *)

(** [struct header] *)
Record header : Type := Header {
  value : string * string;
  params : gmap string string
}.

(** [struct part] *)
Record part : Type := Part {
  headers : list header;
  body : string
}.

(** [struct message]: the message-level [ci_map headers] belongs to the HTTP
    layer and is not read by any function below except through the
    Content-Type value handed to [get_boundary]. *)
Record message : Type := Message {
  boundary : string;
  parts : list part
}.

#[global] Instance header_eq_dec : EqDecision header.
Proof. solve_decision. Defined.
#[global] Instance part_eq_dec : EqDecision part.
Proof. solve_decision. Defined.
#[global] Instance outcome_eq_dec {A} `{EqDecision A} : EqDecision (outcome A).
Proof. solve_decision. Defined.

(** ** [trim] and [pad] *)

Definition trim (s : string) (excess : ascii) : outcome string :=
  if (1 <? Str.size s)
     && Ascii.eqb (Str.at_ s 0) excess
     && Ascii.eqb (Str.at_ s (Str.size s -ₛ 1)) excess
  then Str.substr s 1 (Str.size s -ₛ 2)
  else Ok s.

Definition pad (s : string) (padding : ascii) : string :=
  String padding (s +:+ Str.of_char padding).

(** ** [message::get_boundary] *)

Definition boundary_text : string := "boundary=".

(** [strlen] *)
Definition strlen (s : string) : N := Str.size s.

Definition get_boundary (header : string) : outcome string :=
  let found := Str.find header boundary_text in
  if negb (found =? 0) then
    to_return ←! Str.substr header (found +ₛ strlen boundary_text) Str.npos;
    if Ascii.eqb (Str.at_ to_return 0) dquote then
      Str.substr to_return 1 (Str.size to_return -ₛ 2)
    else Ok to_return
  else Ok EmptyString.

(** ** [while] loops

    [while fuel cond body s] runs [while (cond) body] from state [s] for at
    most [fuel] iterations; [None] means the loop has not left within
    [fuel] iterations. *)

Fixpoint while {St : Type} (fuel : nat) (cond : St → bool)
    (body : St → outcome St) (s : St) : option (outcome St) :=
  if cond s then
    match fuel with
    | O => None
    | S fuel' =>
        match body s with
        | Ok s' => while fuel' cond body s'
        | OutOfRange => Some OutOfRange
        | Undefined => Some Undefined
        end
    end
  else Some (Ok s).

(** A loop whose every iteration shortens a string finishes within its
    length; [run] reads the result of such a loop. *)
Definition run {A : Type} (r : option (outcome A)) : outcome A :=
  match r with
  | Some o => o
  | None => Undefined
  end.

(** ** [message::parse_section_head] *)

(** [params.emplace(k, v)]: inserts only when [k] is not yet a key *)
Definition emplace (k v : string) (m : gmap string string) : gmap string string :=
  match m !! k with
  | Some _ => m
  | None => <[k:=v]> m
  end.

(** The name and the trimmed value of one parameter token: the arguments
    of [to_add.params.emplace]. *)
Definition param_of_token (param : string) : outcome (string * string) :=
  let param_split := Str.find param "=" in
  value ←! Str.substr param (param_split +ₛ 1) Str.npos;
  name ←! Str.substr param 0 param_split;
  trimmed ←! trim value dquote;
  Ok (name, trimmed).

(** One round of the inner loop, [while (!line.empty())]: the state is the
    rest of [line] and [to_add.params]. *)
Definition parse_params_body (st : string * gmap string string)
    : outcome (string * gmap string string) :=
  let '(line, params) := st in
  let found := Str.find line "; " in
  param ←! Str.substr line 0 found;
  line ←! (if negb (found =? Str.npos) then Str.erase line 0 (found +ₛ 2)
           else Ok EmptyString);
  '(name, trimmed) ←! param_of_token param;
  Ok (line, emplace name trimmed params).

Definition parse_params (line : string) (params : gmap string string)
    : outcome (gmap string string) :=
  '(_, params) ←! run (while (S (String.length line))
                         (λ st, negb (Str.empty st.1)) parse_params_body
                         (line, params));
  Ok params.

(** The pair that [to_add.value] is set to, from the main segment of a
    line. *)
Definition split_header (header : string) : outcome (string * string) :=
  let header_split := Str.find header ": " in
  first ←! Str.substr header 0 header_split;
  second ←! Str.substr header (header_split +ₛ 2) Str.npos;
  Ok (first, second).

(** The primary pair of a non-empty line, and what is left of the line for
    the parameters loop. *)
Definition parse_primary (line : string) : outcome (string * string * string) :=
  let found := Str.find line "; " in
  header ←! Str.substr line 0 found;
  line ←! (if negb (found =? Str.npos) then Str.erase line 0 (found +ₛ 2)
           else Ok EmptyString);
  value ←! split_header header;
  Ok (value, line).

(** [to_add] for one line of the header block: an empty line leaves the
    pair and the parameters of the default-constructed header. *)
Definition header_of_line (line : string) : outcome header :=
  '(value, line) ←! (if negb (Str.empty line) then parse_primary line
                     else Ok (EmptyString, EmptyString, line));
  params ←! parse_params line ∅;
  Ok (Header value params).

(** One round of the outer loop, [while (!lines.empty())]: the state is the
    rest of [lines] and [part.headers]. *)
Definition parse_section_head_body (st : string * list header)
    : outcome (string * list header) :=
  let '(lines, hs) := st in
  let found := Str.find lines crlf in
  line ←! Str.substr lines 0 found;
  lines ←! Str.erase lines 0 (found +ₛ 2);
  to_add ←! header_of_line line;
  Ok (lines, hs ++ [to_add]).

Definition parse_section_head (lines : string) (p : part) : outcome part :=
  '(_, hs) ←! run (while (S (String.length lines))
                     (λ st, negb (Str.empty st.1)) parse_section_head_body
                     (lines, headers p));
  Ok (Part hs (body p)).

(** ** [message::parse_section] *)

Definition parse_section (section : string) : outcome part :=
  let to_return := Part [] EmptyString in
  let found := Str.find section (crlf +:+ crlf) in
  head_line ←! Str.substr section 0 (found +ₛ 2);
  section ←! Str.erase section 0 (found +ₛ 4);
  to_return ←! parse_section_head head_line to_return;
  body ←! Str.substr section 0 (Str.size section -ₛ 2);
  Ok (Part (headers to_return) body).

(** ** [message::parse_body] *)

(** One round of [while (body != crlf)]: the state is [body] and [sections]. *)
Definition parse_body_body (delimiter : string) (st : string * list part)
    : outcome (string * list part) :=
  let '(body, sections) := st in
  let found := Str.find body delimiter in
  section ←! Str.substr body 0 found;
  (* +2 is the CRLF *)
  body ←! Str.erase body 0 (found +ₛ Str.size delimiter +ₛ 2);
  if negb (Str.empty section) then
    p ←! parse_section section;
    Ok (body, sections ++ [p])
  else Ok (body, sections).

(** The section texts that the rounds of the loop cut off the buffer, empty
    ones included, in the order in which they are cut: the same [find],
    [substr] and [erase] as in [parse_body_body], without the parsing. *)
Fixpoint cut_sections (fuel : nat) (delimiter body : string)
    : option (list string) :=
  if negb (String.eqb body crlf) then
    match fuel with
    | O => None
    | S fuel' =>
        let found := Str.find body delimiter in
        match Str.substr body 0 found,
              Str.erase body 0 (found +ₛ Str.size delimiter +ₛ 2) with
        | Ok section, Ok body' =>
            (section ::.) <$> cut_sections fuel' delimiter body'
        | _, _ => None
        end
    end
  else Some [].

Definition parse_body (fuel : nat) (boundary body : string)
    : option (outcome (list part)) :=
  let delimiter := dd +:+ boundary in
  r ← while fuel (λ st, negb (String.eqb st.1 crlf))
         (parse_body_body delimiter) (body, []);
  Some ('(_, sections) ←! r; Ok sections).

(** [message(const request& req)], given the request's Content-Type value
    and body. *)
Definition message_of_request (fuel : nat) (content_type body : string)
    : option (outcome message) :=
  match get_boundary content_type with
  | Ok b =>
      r ← parse_body fuel b body;
      Some (ps ←! r; Ok (Message b ps))
  | OutOfRange => Some OutOfRange
  | Undefined => Some Undefined
  end.

(** ** [message::dump] *)

Section Dump.
(** The order in which [for (auto& it : item_h.params)] visits an
    [unordered_map] is unspecified: it is a parameter of the serializer. *)
Variable iteration : gmap string string → list (string * string).

Definition dump_param (it : string * string) : string :=
  "; " +:+ it.1 +:+ "=" +:+ pad it.2 dquote.

(** The parameters of a header as [dump] writes them, in the order [l] *)
Definition params_text (l : list (string * string)) : string :=
  foldr String.append EmptyString (dump_param <$> l).

Definition dump_header (item_h : header) : string :=
  (value item_h).1 +:+ ": " +:+ (value item_h).2
    +:+ params_text (iteration (params item_h))
    +:+ crlf.

(** The line of a header as [dump] writes it, without its CRLF *)
Definition header_line (item_h : header) : string :=
  (value item_h).1 +:+ ": " +:+ (value item_h).2
    +:+ params_text (iteration (params item_h)).

(** The header block of a part as [dump] writes it *)
Definition headers_text (hs : list header) : string :=
  foldr String.append EmptyString (dump_header <$> hs).

Definition dump_item (item : part) : string :=
  headers_text (headers item) +:+ crlf +:+ body item +:+ crlf.

(** The text that [dump()] returns: every part after a delimiter line,
    then the closing delimiter. *)
Definition parts_text (delimiter : string) (ps : list part) : string :=
  foldr (λ item acc, delimiter +:+ crlf +:+ dump_item item +:+ acc)
    EmptyString ps.

Definition dump_text (m : message) : string :=
  parts_text (dd +:+ boundary m) (parts m)
    +:+ (dd +:+ boundary m) +:+ dd +:+ crlf.

(** What follows a delimiter in that text: a CRLF when a part comes next,
    [--] when the delimiter is the closing one. *)
Definition after_delimiter (ps : list part) : string :=
  match ps with
  | [] => dd
  | _ :: _ => crlf
  end.

(** What is left of that text in the buffer of [parse_body] when the parts
    [ps] are still to be split off. *)
Fixpoint remaining_text (delimiter : string) (ps : list part) : string :=
  match ps with
  | [] => crlf
  | item :: ps' =>
      dump_item item +:+ delimiter +:+ after_delimiter ps'
        +:+ remaining_text delimiter ps'
  end.

(** The delimiter is first met right after the serialized part: the part's
    own text does not run into it. *)
Definition delimiter_after (delimiter : string) (item : part) : Prop :=
  Str.first_occurrence delimiter (dump_item item +:+ delimiter)
  = Some (String.length (dump_item item)).

(** [dump(int part_)]: [parts[part_]] is an unchecked [operator[]] *)
Definition dump_part (m : message) (part_ : Z) : outcome string :=
  let i := SizeT.of_int part_ in
  if i <? N.of_nat (length (parts m)) then
    match parts m !! N.to_nat i with
    | Some item => Ok (dump_item item)
    | None => Undefined
    end
  else Undefined.

(** [dump()]: the loop counter is an [unsigned], handed to [dump(int)] *)
Definition dump (m : message) : outcome string :=
  let delimiter := dd +:+ boundary m in
  str ←! foldl (λ acc i,
                  str ←! acc;
                  d ←! dump_part m (SizeT.int_of_unsigned (N.of_nat i));
                  Ok (str +:+ delimiter +:+ crlf +:+ d))
           (Ok EmptyString) (seq 0 (length (parts m)));
  Ok (str +:+ delimiter +:+ dd +:+ crlf).
End Dump.

(** ** Inputs used below *)

Definition quoted (s : string) : string := pad s dquote.

(** [--X\r\nContent-Disposition: form-data; name="f"\r\n\r\nhello\r\n--X--\r\n] *)
Definition scenario_A : string :=
  "--X" +:+ crlf
  +:+ "Content-Disposition: form-data; name=" +:+ quoted "f" +:+ crlf
  +:+ crlf
  +:+ "hello" +:+ crlf
  +:+ "--X--" +:+ crlf.

(** [--X\r\n\r\nbody\r\n--X--\r\n] *)
Definition scenario_B : string :=
  "--X" +:+ crlf
  +:+ crlf
  +:+ "body" +:+ crlf
  +:+ "--X--" +:+ crlf.

Definition CR : string := String "013"%char EmptyString.

(** [--X\r\nA: b\r\n\r\nhello\r\n], a body cut off before its closing
    delimiter *)
Definition truncated_body : string :=
  "--X" +:+ crlf +:+ "A: b" +:+ crlf +:+ crlf +:+ "hello" +:+ crlf.

(** ** Occurrences of one character and of two adjacent characters

    The searches of the parser look for [=], ["; "], [": "] and CRLF. *)

Definition head_is (c : ascii) (s : string) : bool :=
  match s with
  | String x _ => Ascii.eqb x c
  | EmptyString => false
  end.

Fixpoint has1 (x : ascii) (s : string) : bool :=
  match s with
  | String c s' => Ascii.eqb c x || has1 x s'
  | EmptyString => false
  end.

Fixpoint has2 (x y : ascii) (s : string) : bool :=
  match s with
  | String c s' => (Ascii.eqb c x && head_is y s') || has2 x y s'
  | EmptyString => false
  end.

Definition pair_of (x y : ascii) : string := String x (String y EmptyString).

(** ** Parts as the parser builds them

    What every header that [parse_section_head] builds satisfies: the name
    holds no [": "], neither name nor value holds ["; "], no parameter name
    holds [=], no parameter name or value holds ["; "], and nothing holds a
    CRLF. *)

Definition no_crlf (s : string) : Prop := has2 "013" "010" s = false.

Definition no_semi (s : string) : Prop := has2 ";" " " s = false.

Definition wf_param (k v : string) : Prop :=
  has1 "=" k = false ∧ no_semi k ∧ no_semi v ∧ no_crlf k ∧ no_crlf v.

Definition wf_header (h : header) : Prop :=
  has2 ":" " " (value h).1 = false
  ∧ no_semi (value h).1 ∧ no_semi (value h).2
  ∧ no_crlf (value h).1 ∧ no_crlf (value h).2
  ∧ map_Forall wf_param (params h).

Definition wf_part (p : part) : Prop :=
  headers p ≠ [] ∧ Forall wf_header (headers p).

(** [m] occurs in [s] as a substring *)
Definition substring_of (m s : string) : Prop :=
  ∃ a b, s = a +:+ m +:+ b.

(** The parameters text without its leading ["; "]: what the parameters
    loop is handed when a serialized header is parsed again. *)
Definition tokens_text (l : list (string * string)) : string :=
  match l with
  | [] => EmptyString
  | it :: l' => (it.1 +:+ "=" +:+ pad it.2 dquote) +:+ params_text l'
  end.

(** A body whose boundary is a lone double quote character (what
    [get_boundary] returns when the boundary parameter is three double
    quotes in a row), with one part whose header [A: b] has the unquoted
    parameter [x=y--]; written with Q for the quote character:
    [--Q\r\nA: b; x=y--\r\n\r\nhello\r\n--Q--\r\n] *)
Definition quote_boundary : string := Str.of_char dquote.

Definition quote_boundary_body : string :=
  "--" +:+ quote_boundary +:+ crlf
  +:+ "A: b; x=y--" +:+ crlf
  +:+ crlf
  +:+ "hello" +:+ crlf
  +:+ "--" +:+ quote_boundary +:+ "--" +:+ crlf.

(** ** Texts free of the delimiter

    [dump] joins the names, values and bodies of a message with the
    characters below; a boundary without any of them cannot be completed by
    what [dump] adds. *)

Definition free_of (needle s : string) : Prop :=
  Str.first_occurrence needle s = None.

Definition separator_chars : list ascii :=
  ["013"; "010"; ":"; " "; ";"; "="; dquote]%char.

Definition plain (needle : string) : Prop :=
  Forall (λ c, has1 c needle = false) separator_chars.

(** Every name, value and body of the part occurs in [s]. *)
Definition header_within (s : string) (h : header) : Prop :=
  substring_of (value h).1 s ∧ substring_of (value h).2 s
  ∧ map_Forall (λ k v, substring_of k s ∧ substring_of v s) (params h).

Definition part_within (s : string) (p : part) : Prop :=
  Forall (header_within s) (headers p) ∧ substring_of (body p) s.

(** ** Header blocks

    The text of a header block whose lines are [ls]: every line is followed
    by a CRLF. *)
Definition lines_text (ls : list string) : string :=
  foldr (λ l acc, l +:+ crlf +:+ acc) EmptyString ls.

(** ** What [find] returns *)

(** [find] either returns an index at which the text splits around the
    needle, or [npos]. *)
Inductive find_spec (s needle : string) : N → Prop :=
| find_found (a b : string) :
    s = a +:+ needle +:+ b →
    Str.first_occurrence needle s = Some (String.length a) →
    find_spec s needle (Str.size a)
| find_not_found :
    Str.first_occurrence needle s = None →
    find_spec s needle Str.npos.

(** [find] for the needles of the parser. *)
Inductive find_pair_spec (x y : ascii) (s : string) : N → Prop :=
| find_pair_found (a b : string) :
    s = a +:+ pair_of x y +:+ b → has2 x y a = false →
    find_pair_spec x y s (Str.size a)
| find_pair_not_found :
    has2 x y s = false → find_pair_spec x y s Str.npos.

Inductive find_char_spec (x : ascii) (s : string) : N → Prop :=
| find_char_found (a b : string) :
    s = a +:+ String x b → has1 x a = false →
    find_char_spec x s (Str.size a)
| find_char_not_found :
    has1 x s = false → find_char_spec x s Str.npos.

(** * Properties *)

(** ** [std::string]: lengths, prefixes and suffixes *)

Lemma app_String (x : ascii) (a b : string) :
  String x a +:+ b = String x (a +:+ b).
Proof. reflexivity. Qed.

Lemma app_Empty (b : string) : EmptyString +:+ b = b.
Proof. reflexivity. Qed.

Lemma length_app (a b : string) :
  String.length (a +:+ b) = (String.length a + String.length b)%nat.
Proof. induction a as [|c a IH]; rewrite ?app_String, ?app_Empty; simpl; [reflexivity | by f_equal]. Qed.

Lemma size_app (a b : string) : Str.size (a +:+ b) = Str.size a + Str.size b.
Proof. unfold Str.size. rewrite length_app. lia. Qed.

Lemma app_assoc_s (a b c : string) : (a +:+ b) +:+ c = a +:+ (b +:+ c).
Proof. induction a as [|x a IH]; rewrite ?app_String, ?app_Empty; simpl; [reflexivity | by f_equal]. Qed.

Lemma app_empty_r (a : string) : a +:+ EmptyString = a.
Proof. induction a as [|x a IH]; rewrite ?app_String, ?app_Empty; simpl; [reflexivity | by f_equal]. Qed.

Lemma take_app_length (a b : string) : Str.take (String.length a) (a +:+ b) = a.
Proof. induction a as [|x a IH]; rewrite ?app_String, ?app_Empty; simpl; [by destruct b | by f_equal]. Qed.

Lemma drop_app_length (a b : string) : Str.drop (String.length a) (a +:+ b) = b.
Proof. induction a as [|x a IH]; rewrite ?app_String, ?app_Empty; simpl; [by destruct b | exact IH]. Qed.

Lemma take_all (n : nat) (s : string) :
  (String.length s ≤ n)%nat → Str.take n s = s.
Proof.
  revert n. induction s as [|x s IH]; intros [|n] Hn; simpl in *;
    try reflexivity; try lia.
  f_equal. apply IH. lia.
Qed.

Lemma drop_all (n : nat) (s : string) :
  (String.length s ≤ n)%nat → Str.drop n s = EmptyString.
Proof.
  revert n. induction s as [|x s IH]; intros [|n] Hn; simpl in *;
    try reflexivity; try lia.
  apply IH. lia.
Qed.

Lemma take_drop (n : nat) (s : string) : Str.take n s +:+ Str.drop n s = s.
Proof.
  revert n. induction s as [|x s IH]; intros [|n]; simpl; try reflexivity.
  rewrite app_String. by f_equal.
Qed.

Lemma empty_false (s : string) : Str.empty s = false ↔ s ≠ EmptyString.
Proof. destruct s; simpl; split; congruence. Qed.

(** ** [size_t] without wrap-around *)

Lemma add_small (a b : N) : a + b < SizeT.modulus → a +ₛ b = a + b.
Proof. intros H. unfold SizeT.add, SizeT.wrap. apply N.mod_small. exact H. Qed.

Lemma sub_small (a b : N) : b ≤ a → a < SizeT.modulus → a -ₛ b = a - b.
Proof.
  intros Hle H. unfold SizeT.sub, SizeT.wrap.
  replace (a + SizeT.modulus - b) with ((a - b) + 1 * SizeT.modulus) by lia.
  rewrite N.Div0.mod_add. apply N.mod_small. lia.
Qed.

Lemma modulus_value : SizeT.modulus = 18446744073709551616.
Proof. reflexivity. Qed.

(** ** [substr] and [erase] *)

Lemma substr_0 (s : string) (len : N) :
  Str.substr s 0 len = Ok (Str.take (N.to_nat (N.min len (Str.size s))) s).
Proof.
  unfold Str.substr. destruct (N.ltb_spec (Str.size s) 0); [lia|].
  by rewrite N.sub_0_r.
Qed.

Lemma erase_0 (s : string) (len : N) :
  Str.erase s 0 len = Ok (Str.drop (N.to_nat (N.min len (Str.size s))) s).
Proof.
  unfold Str.erase. destruct (N.ltb_spec (Str.size s) 0); [lia|].
  by rewrite N.sub_0_r.
Qed.

Lemma substr_prefix (a b : string) :
  Str.substr (a +:+ b) 0 (Str.size a) = Ok a.
Proof.
  rewrite substr_0, size_app, N.min_l by lia.
  unfold Str.size. by rewrite Nat2N.id, take_app_length.
Qed.

Lemma substr_whole (s : string) (len : N) :
  Str.size s ≤ len → Str.substr s 0 len = Ok s.
Proof.
  intros H. rewrite substr_0, N.min_r by lia.
  unfold Str.size. rewrite Nat2N.id. by rewrite take_all.
Qed.

Lemma substr_suffix (a b : string) (len : N) :
  Str.size b ≤ len → Str.substr (a +:+ b) (Str.size a) len = Ok b.
Proof.
  intros H. unfold Str.substr. rewrite size_app.
  destruct (N.ltb_spec (Str.size a + Str.size b) (Str.size a)); [lia|].
  replace (Str.size a + Str.size b - Str.size a) with (Str.size b) by lia.
  rewrite N.min_r by lia. unfold Str.size. rewrite !Nat2N.id.
  rewrite drop_app_length. by rewrite take_all.
Qed.

Lemma erase_prefix (a b : string) :
  Str.erase (a +:+ b) 0 (Str.size a) = Ok b.
Proof.
  rewrite erase_0, size_app, N.min_l by lia.
  unfold Str.size. by rewrite Nat2N.id, drop_app_length.
Qed.

(** ** Searching *)

Lemma starts_with_app (needle rest : string) :
  Str.starts_with needle (needle +:+ rest) = true.
Proof.
  induction needle as [|c needle IH]; [reflexivity|].
  rewrite app_String. simpl. by rewrite Ascii.eqb_refl.
Qed.

Lemma starts_with_true (needle s : string) :
  Str.starts_with needle s = true →
  s = needle +:+ Str.drop (String.length needle) s.
Proof.
  revert s. induction needle as [|c needle IH]; intros [|x s] H; simpl in *;
    try reflexivity; try discriminate.
  destruct (Ascii.eqb_spec c x) as [->|]; [|discriminate].
  rewrite app_String. f_equal. by apply IH.
Qed.

(** A mismatch that does not come from running out of text stays one when
    the text is extended. *)
Lemma starts_with_false_app (needle s t : string) :
  Str.starts_with needle s = false →
  (String.length needle ≤ String.length s)%nat →
  Str.starts_with needle (s +:+ t) = false.
Proof.
  revert s. induction needle as [|c needle IH]; intros [|x s] H Hlen;
    simpl in *; try discriminate; try lia.
  rewrite ?app_String. simpl.
  destruct (Ascii.eqb c x); [|reflexivity]. apply IH; [exact H | lia].
Qed.

Lemma first_occurrence_String (needle : string) (c : ascii) (s : string) :
  Str.first_occurrence needle (String c s) =
    if Str.starts_with needle (String c s) then Some O
    else S <$> Str.first_occurrence needle s.
Proof. reflexivity. Qed.

(** What a successful search says: the text splits at the index found. *)
Lemma first_occurrence_Some (needle s : string) (i : nat) :
  Str.first_occurrence needle s = Some i →
  ∃ a b, s = a +:+ needle +:+ b ∧ String.length a = i.
Proof.
  revert i. induction s as [|c s IH]; intros i H.
  - simpl in H. destruct (Str.starts_with needle EmptyString) eqn:Hs;
      [|discriminate].
    injection H as <-. exists EmptyString, EmptyString.
    destruct needle; [done | discriminate].
  - rewrite first_occurrence_String in H.
    destruct (Str.starts_with needle (String c s)) eqn:Hs.
    + injection H as <-. exists EmptyString, (Str.drop (String.length needle) (String c s)).
      split; [|reflexivity]. rewrite app_Empty. by apply starts_with_true.
    + destruct (Str.first_occurrence needle s) as [j|] eqn:Hj; [|discriminate].
      injection H as <-. destruct (IH j eq_refl) as (a & b & -> & <-).
      exists (String c a), b. done.
Qed.

Lemma first_occurrence_bound (needle s : string) (i : nat) :
  Str.first_occurrence needle s = Some i →
  (i + String.length needle ≤ String.length s)%nat.
Proof.
  intros (a & b & -> & <-)%first_occurrence_Some.
  rewrite !length_app. lia.
Qed.

(** A match found in a text is still the first one when the text is
    extended. *)
Lemma first_occurrence_app_r (needle s t : string) (i : nat) :
  Str.first_occurrence needle s = Some i →
  Str.first_occurrence needle (s +:+ t) = Some i.
Proof.
  revert i. induction s as [|c s IH]; intros i H.
  - simpl in H. destruct needle; [|discriminate]. injection H as <-.
    by destruct t.
  - pose proof (first_occurrence_bound _ _ _ H) as Hb.
    rewrite first_occurrence_String in H. rewrite app_String, first_occurrence_String.
    destruct (Str.starts_with needle (String c s)) eqn:Hs.
    + injection H as <-. apply starts_with_true in Hs. rewrite <- app_String.
      rewrite Hs, app_assoc_s, starts_with_app. reflexivity.
    + destruct (Str.first_occurrence needle s) as [j|] eqn:Hj; [|discriminate].
      injection H as <-. rewrite <- app_String.
      rewrite starts_with_false_app; [|exact Hs|simpl in *; lia].
      by rewrite (IH j eq_refl).
Qed.

Lemma find_cases (s needle : string) : find_spec s needle (Str.find s needle).
Proof.
  unfold Str.find.
  destruct (Str.first_occurrence needle s) as [i|] eqn:H.
  - destruct (first_occurrence_Some _ _ _ H) as (a & b & Hs & <-).
    by apply (find_found s needle a b).
  - by apply find_not_found.
Qed.

(** ** Needles of one and of two characters *)

Lemma head_is_app_String (y c : ascii) (a b : string) :
  head_is y (a +:+ String c b) = if Str.empty a then Ascii.eqb c y else head_is y a.
Proof. by destruct a. Qed.

Lemma has2_app_false (x y : ascii) (a b : string) :
  has2 x y (a +:+ b) = false → has2 x y a = false ∧ has2 x y b = false.
Proof.
  induction a as [|c a IH]; [done|].
  rewrite app_String. simpl.
  intros [H1 H2]%orb_false_elim. destruct (IH H2) as [Ha Hb].
  split; [|exact Hb]. rewrite Ha, orb_false_r.
  destruct (Ascii.eqb c x); [|reflexivity]. simpl in *.
  destruct a as [|c' a]; [reflexivity | exact H1].
Qed.

(** Two pieces joined at a character other than [y] have the pairs of the
    pieces and none across the joint. *)
Lemma has2_app_String (x y c : ascii) (a b : string) :
  c ≠ y → has2 x y (a +:+ String c b) = has2 x y a || has2 x y (String c b).
Proof.
  intros Hc. induction a as [|c' a IH]; [reflexivity|].
  rewrite app_String. cbn [has2]. rewrite IH, orb_assoc. f_equal. f_equal.
  rewrite head_is_app_String. destruct a as [|c'' a]; simpl; [|reflexivity].
  destruct (Ascii.eqb_spec c y); [done|]. by rewrite andb_false_r.
Qed.

Lemma has2_String_ne (x y c : ascii) (b : string) :
  c ≠ x → has2 x y (String c b) = has2 x y b.
Proof. intros Hc. simpl. by destruct (Ascii.eqb_spec c x). Qed.

Lemma starts_with_pair (x y : ascii) (more s : string) :
  Str.starts_with (String x (String y more)) s = true →
  head_is x s = true ∧ head_is y (Str.drop 1 s) = true.
Proof.
  destruct s as [|c [|c' s]]; simpl; try discriminate.
  - destruct (Ascii.eqb x c); discriminate.
  - rewrite (Ascii.eqb_sym c x), (Ascii.eqb_sym c' y).
    destruct (Ascii.eqb x c); [|discriminate].
    destruct (Ascii.eqb y c'); [done | discriminate].
Qed.

Lemma starts_with_pair_of (x y : ascii) (s : string) :
  Str.starts_with (pair_of x y) s = head_is x s && head_is y (Str.drop 1 s).
Proof.
  destruct s as [|c [|c' s]]; simpl; try reflexivity.
  - rewrite (Ascii.eqb_sym c x). by destruct (Ascii.eqb x c).
  - rewrite (Ascii.eqb_sym c x), (Ascii.eqb_sym c' y).
    destruct (Ascii.eqb x c); [|reflexivity]. by destruct (Ascii.eqb y c').
Qed.

Lemma starts_with_char (x : ascii) (s : string) :
  Str.starts_with (String x EmptyString) s = head_is x s.
Proof.
  destruct s as [|c s]; simpl; [reflexivity|].
  rewrite (Ascii.eqb_sym c x). by destruct (Ascii.eqb x c).
Qed.

(** No pair [x y] in the text: no needle that starts with [x y] is found. *)
Lemma first_occurrence_no_pair (x y : ascii) (more s : string) :
  has2 x y s = false →
  Str.first_occurrence (String x (String y more)) s = None.
Proof.
  induction s as [|c s IH]; [reflexivity|].
  cbn [has2]. intros [H1 H2]%orb_false_elim.
  rewrite first_occurrence_String, (IH H2).
  destruct (Str.starts_with _ _) eqn:Hs; [|reflexivity].
  apply starts_with_pair in Hs as [Hx Hy]. simpl in Hx, Hy.
  by rewrite Hx, Hy in H1.
Qed.

Lemma first_occurrence_pair_None (x y : ascii) (s : string) :
  Str.first_occurrence (pair_of x y) s = None → has2 x y s = false.
Proof.
  induction s as [|c s IH]; [reflexivity|].
  rewrite first_occurrence_String, starts_with_pair_of. cbn [has2 head_is Str.drop].
  destruct (Ascii.eqb c x && head_is y s); [discriminate|].
  destruct (Str.first_occurrence (pair_of x y) s); [discriminate|].
  intros _. by rewrite IH.
Qed.

Lemma first_occurrence_pair_prefix (x y : ascii) (a rest : string) :
  Str.first_occurrence (pair_of x y) (a +:+ rest) = Some (String.length a) →
  has2 x y a = false.
Proof.
  induction a as [|c a IH]; [reflexivity|].
  rewrite app_String, first_occurrence_String, starts_with_pair_of.
  cbn [has2 head_is Str.drop String.length].
  destruct (Ascii.eqb c x && head_is y (a +:+ rest)) eqn:Hc; [discriminate|].
  destruct (Str.first_occurrence (pair_of x y) (a +:+ rest)) as [j|] eqn:Hj;
    [|discriminate].
  intros [= ->]. rewrite (IH eq_refl), orb_false_r.
  destruct (Ascii.eqb c x); [|reflexivity]. simpl in *.
  destruct a as [|c' a]; [reflexivity | exact Hc].
Qed.

(** The needle is found right after a prefix that holds no pair [x y], when
    the needle starts with [x y] and [x] differs from [y]. *)
Lemma first_occurrence_after_prefix (x y : ascii) (more a b : string) :
  x ≠ y → has2 x y a = false →
  Str.first_occurrence (String x (String y more))
    (a +:+ String x (String y more) +:+ b) = Some (String.length a).
Proof.
  intros Hxy. set (needle := String x (String y more)).
  induction a as [|c a IH]; intros Ha.
  - rewrite app_Empty. unfold needle at 2.
    rewrite app_String, first_occurrence_String, <- app_String.
    fold needle. by rewrite starts_with_app.
  - cbn [has2] in Ha. apply orb_false_elim in Ha as [H1 H2].
    rewrite app_String, first_occurrence_String, (IH H2).
    destruct (Str.starts_with needle _) eqn:Hs; [|reflexivity].
    apply starts_with_pair in Hs as [Hx Hy]. cbn [head_is Str.drop] in Hx, Hy.
    rewrite Hx in H1. destruct a as [|c' a].
    + rewrite app_Empty in Hy. simpl in Hy.
      by apply Ascii.eqb_eq in Hy.
    + rewrite app_String in Hy. simpl in Hy, H1. congruence.
Qed.

Lemma first_occurrence_no_char (x : ascii) (s : string) :
  has1 x s = false → Str.first_occurrence (String x EmptyString) s = None.
Proof.
  induction s as [|c s IH]; [reflexivity|].
  cbn [has1]. intros [H1 H2]%orb_false_elim.
  rewrite first_occurrence_String, starts_with_char, (IH H2).
  cbn [head_is]. by rewrite H1.
Qed.

Lemma first_occurrence_char_None (x : ascii) (s : string) :
  Str.first_occurrence (String x EmptyString) s = None → has1 x s = false.
Proof.
  induction s as [|c s IH]; [reflexivity|].
  rewrite first_occurrence_String, starts_with_char. cbn [has1 head_is].
  destruct (Ascii.eqb c x); [discriminate|].
  destruct (Str.first_occurrence _ s); [discriminate|].
  intros _. by rewrite IH.
Qed.

Lemma first_occurrence_char_prefix (x : ascii) (a rest : string) :
  Str.first_occurrence (String x EmptyString) (a +:+ rest)
    = Some (String.length a) →
  has1 x a = false.
Proof.
  induction a as [|c a IH]; [reflexivity|].
  rewrite app_String, first_occurrence_String, starts_with_char.
  cbn [has1 head_is String.length].
  destruct (Ascii.eqb c x); [discriminate|].
  destruct (Str.first_occurrence _ (a +:+ rest)) as [j|] eqn:Hj; [|discriminate].
  intros [= ->]. by rewrite (IH eq_refl).
Qed.

Lemma first_occurrence_after_char_free (x : ascii) (a b : string) :
  has1 x a = false →
  Str.first_occurrence (String x EmptyString) (a +:+ String x b)
    = Some (String.length a).
Proof.
  induction a as [|c a IH]; intros Ha.
  - rewrite app_Empty, first_occurrence_String, starts_with_char.
    simpl. by rewrite Ascii.eqb_refl.
  - cbn [has1] in Ha. apply orb_false_elim in Ha as [H1 H2].
    rewrite app_String, first_occurrence_String, starts_with_char, (IH H2).
    cbn [head_is]. by rewrite H1.
Qed.

Lemma find_pair_cases (x y : ascii) (s : string) :
  find_pair_spec x y s (Str.find s (pair_of x y)).
Proof.
  destruct (find_cases s (pair_of x y)) as [a b Hs Hf | Hf].
  - apply (find_pair_found x y s a b Hs). rewrite Hs in Hf.
    by apply first_occurrence_pair_prefix in Hf.
  - apply find_pair_not_found. by apply first_occurrence_pair_None.
Qed.

Lemma find_char_cases (x : ascii) (s : string) :
  find_char_spec x s (Str.find s (String x EmptyString)).
Proof.
  destruct (find_cases s (String x EmptyString)) as [a b Hs Hf | Hf].
  - apply (find_char_found x s a b Hs). rewrite Hs in Hf.
    by apply first_occurrence_char_prefix in Hf.
  - apply find_char_not_found. by apply first_occurrence_char_None.
Qed.

Lemma find_after_prefix (x y : ascii) (more a b : string) :
  x ≠ y → has2 x y a = false →
  Str.find (a +:+ String x (String y more) +:+ b) (String x (String y more))
    = Str.size a.
Proof.
  intros Hxy Ha. unfold Str.find.
  by rewrite first_occurrence_after_prefix.
Qed.

Lemma find_no_pair (x y : ascii) (more s : string) :
  has2 x y s = false → Str.find s (String x (String y more)) = Str.npos.
Proof. intros H. unfold Str.find. by rewrite first_occurrence_no_pair. Qed.

Lemma find_after_char_free (x : ascii) (a b : string) :
  has1 x a = false →
  Str.find (a +:+ String x b) (String x EmptyString) = Str.size a.
Proof.
  intros Ha. unfold Str.find. by rewrite first_occurrence_after_char_free.
Qed.

Lemma find_no_char (x : ascii) (s : string) :
  has1 x s = false → Str.find s (String x EmptyString) = Str.npos.
Proof. intros H. unfold Str.find. by rewrite first_occurrence_no_char. Qed.

(** ** Substrings *)

Lemma substring_of_refl (s : string) : substring_of s s.
Proof. exists EmptyString, EmptyString. by rewrite app_Empty, app_empty_r. Qed.

Lemma substring_of_trans (a b c : string) :
  substring_of a b → substring_of b c → substring_of a c.
Proof.
  intros (p & q & ->) (p' & q' & ->). exists (p' +:+ p), (q +:+ q').
  by rewrite !app_assoc_s.
Qed.

Lemma substring_of_prefix (a b : string) : substring_of a (a +:+ b).
Proof. exists EmptyString, b. by rewrite app_Empty. Qed.

Lemma substring_of_suffix (a b : string) : substring_of b (a +:+ b).
Proof. exists a, EmptyString. by rewrite app_empty_r. Qed.

Lemma substring_of_take (n : nat) (s : string) : substring_of (Str.take n s) s.
Proof.
  rewrite <- (take_drop n s) at 2. apply substring_of_prefix.
Qed.

Lemma substring_of_drop (n : nat) (s : string) : substring_of (Str.drop n s) s.
Proof.
  rewrite <- (take_drop n s) at 2. apply substring_of_suffix.
Qed.

Lemma has2_substring (x y : ascii) (m s : string) :
  substring_of m s → has2 x y s = false → has2 x y m = false.
Proof.
  intros (a & b & ->) H.
  apply has2_app_false in H as [_ H]. by apply has2_app_false in H as [H _].
Qed.

Lemma size_substring (m s : string) :
  substring_of m s → Str.size m ≤ Str.size s.
Proof. intros (a & b & ->). rewrite !size_app. lia. Qed.

(** ** Loops *)

Lemma while_unfold {St : Type} fuel cond body (s : St) :
  while (S fuel) cond body s =
    if cond s then
      match body s with
      | Ok s' => while fuel cond body s'
      | OutOfRange => Some OutOfRange
      | Undefined => Some Undefined
      end
    else Some (Ok s).
Proof. reflexivity. Qed.

Lemma while_exit {St : Type} fuel cond body (s : St) :
  cond s = false → while fuel cond body s = Some (Ok s).
Proof. intros Hc. destruct fuel; simpl; rewrite Hc; reflexivity. Qed.

(** A state that satisfies the loop condition and that the loop body leaves
    unchanged is never left. *)
Lemma while_stuck {St : Type} cond body (s : St) :
  cond s = true → body s = Ok s → ∀ fuel, while fuel cond body s = None.
Proof.
  intros Hc Hb fuel. induction fuel as [|fuel IH]; simpl; rewrite Hc.
  - reflexivity.
  - rewrite Hb. exact IH.
Qed.

(** More fuel does not change the result of a loop that has finished. *)
Lemma while_fuel_mono {St : Type} cond body fuel :
  ∀ (s : St) r fuel', while fuel cond body s = Some r → (fuel ≤ fuel')%nat →
    while fuel' cond body s = Some r.
Proof.
  induction fuel as [|fuel IH]; intros s r fuel' Hr Hle.
  - simpl in Hr. destruct (cond s) eqn:Hc; [discriminate|].
    rewrite while_exit by exact Hc. exact Hr.
  - destruct fuel' as [|fuel']; [lia|].
    rewrite while_unfold in Hr. rewrite while_unfold.
    destruct (cond s); [|exact Hr].
    destruct (body s) as [s'| |]; try exact Hr.
    apply IH; [exact Hr | lia].
Qed.

(** ** Boundary discovery *)

Lemma get_boundary_unfold_found (header : string) :
  Str.find header boundary_text ≠ 0 →
  get_boundary header =
    (to_return ←! Str.substr header
                    (Str.find header boundary_text +ₛ 9) Str.npos;
     if Ascii.eqb (Str.at_ to_return 0) dquote then
       Str.substr to_return 1 (Str.size to_return -ₛ 2)
     else Ok to_return).
Proof.
  intros Hne. unfold get_boundary.
  destruct (N.eqb_spec (Str.find header boundary_text) 0) as [E|_]; [done|].
  reflexivity.
Qed.

(** When the token is absent, [found] is [npos]; it is non-zero, so the
    guarded branch runs and [npos + 9] wraps around to [8]. *)
Lemma npos_plus_strlen_boundary_text : Str.npos +ₛ strlen boundary_text = 8.
Proof. reflexivity. Qed.

Lemma get_boundary_not_found (header : string) :
  Str.find header boundary_text = Str.npos →
  get_boundary header =
    (to_return ←! Str.substr header 8 Str.npos;
     if Ascii.eqb (Str.at_ to_return 0) dquote then
       Str.substr to_return 1 (Str.size to_return -ₛ 2)
     else Ok to_return).
Proof.
  intros Hnf. rewrite get_boundary_unfold_found by (rewrite Hnf; done).
  rewrite Hnf. reflexivity.
Qed.

Example get_boundary_not_found_json :
  get_boundary "application/json" = Ok "ion/json".
Proof.
  rewrite (get_boundary_not_found "application/json"); reflexivity.
Qed.

(** C1. The claim asks that a header value starting with [boundary=] still
    yields its token.  The code tests [if (found)]: a match at offset 0 is
    taken for "not found" and the function returns the empty string,
    whatever follows the token. *)
Theorem get_boundary_at_offset_zero_is_empty :
  ∀ rest : string, get_boundary ("boundary=" +:+ rest) = Ok EmptyString.
Proof. intros rest. reflexivity. Qed.

Example get_boundary_offset_zero_abc :
  Str.find "boundary=abc" boundary_text = 0 ∧
  get_boundary "boundary=abc" = Ok EmptyString ∧
  get_boundary "multipart/form-data; boundary=abc" = Ok "abc" ∧
  get_boundary ("multipart/form-data; boundary=" +:+ quoted "abc") = Ok "abc".
Proof. repeat split; reflexivity. Qed.

(** C2. The claim asks for the empty string when [boundary=] is absent.
    The code returns the header value from offset 8 on, or throws
    [std::out_of_range] when the value is shorter than 8 characters. *)
Theorem get_boundary_token_absent_not_empty :
  Str.find "multipart/form-data" boundary_text = Str.npos
  ∧ get_boundary "multipart/form-data" = Ok "t/form-data"
  ∧ Str.find "text" boundary_text = Str.npos
  ∧ get_boundary "text" = OutOfRange.
Proof. repeat split; reflexivity. Qed.

(** With the boundary [t/form-data] so obtained the message is parsed with
    the delimiter [--t/form-data]. With an empty boundary the delimiter
    would be [--], and a body can still have parts. *)
Example parse_body_empty_boundary_has_parts :
  parse_body 3 EmptyString
    ("--" +:+ crlf +:+ "A: b" +:+ crlf +:+ crlf +:+ "hello" +:+ crlf
     +:+ "----" +:+ crlf)
  = Some (Ok [Part [Header ("A", "b") ∅] "hello"]).
Proof. vm_compute. reflexivity. Qed.

(** ** Body splitting: termination *)

Lemma first_occurrence_in_empty (needle : string) :
  needle ≠ EmptyString → Str.first_occurrence needle EmptyString = None.
Proof. destruct needle; [done | reflexivity]. Qed.

Lemma find_in_empty (needle : string) :
  needle ≠ EmptyString → Str.find EmptyString needle = Str.npos.
Proof.
  intros Hne. unfold Str.find. rewrite first_occurrence_in_empty by exact Hne.
  reflexivity.
Qed.

Lemma erase_empty (len : N) : Str.erase EmptyString 0 len = Ok EmptyString.
Proof.
  unfold Str.erase. change (Str.size EmptyString) with 0.
  rewrite N.sub_0_r, N.min_0_r. reflexivity.
Qed.

(** On an exhausted buffer one round of the loop changes nothing: the
    delimiter is not found, the section is empty and [erase] has nothing to
    remove. *)
Lemma parse_body_body_exhausted (boundary : string) (sections : list part) :
  parse_body_body (dd +:+ boundary) (EmptyString, sections)
  = Ok (EmptyString, sections).
Proof.
  unfold parse_body_body. rewrite find_in_empty by done.
  rewrite erase_empty. reflexivity.
Qed.

Lemma parse_body_loop_exhausted (boundary : string) (sections : list part) fuel :
  while fuel (λ st, negb (String.eqb st.1 crlf))
    (parse_body_body (dd +:+ boundary)) (EmptyString, sections) = None.
Proof.
  apply while_stuck; [reflexivity | apply parse_body_body_exhausted].
Qed.

(** C3. The claim asks that body splitting always terminates.  The loop
    [while (body != crlf)] has no exit for "delimiter not found": once the
    buffer is empty every round leaves it empty, so on the empty body the
    loop never returns, whatever the boundary and however long it runs. *)
Theorem parse_body_empty_body_never_returns :
  ∀ (fuel : nat) (boundary : string),
    parse_body fuel boundary EmptyString = None.
Proof.
  intros fuel boundary. unfold parse_body.
  rewrite parse_body_loop_exhausted. reflexivity.
Qed.

(** The same happens on a body that was cut off before its closing
    delimiter: the part is split off, the buffer runs empty, and the loop
    spins. *)
Example parse_body_truncated_never_returns :
  ∀ fuel : nat, parse_body fuel "X" truncated_body = None.
Proof.
  intros fuel. unfold parse_body.
  do 5 (destruct fuel as [|fuel]; [vm_compute; reflexivity|]).
  do 5 (rewrite while_unfold;
        match goal with
        | |- context [parse_body_body ?d ?s] =>
            let r := eval vm_compute in (parse_body_body d s) in
            change (parse_body_body d s) with r
        end; cbn [negb fst String.eqb Ascii.eqb Bool.eqb crlf]).
  rewrite (parse_body_loop_exhausted "X"). reflexivity.
Qed.

(** ** The scenarios of the specification *)

(** C8. Scenario A parses to one part with the single header
    [Content-Disposition: form-data], the parameter [name] mapped to [f]
    with its quotes stripped, and the body [hello]. *)
Theorem parse_body_scenario_A :
  parse_body 2 "X" scenario_A
  = Some (Ok [Part [Header ("Content-Disposition", "form-data")
                      {[ "name" := "f" ]}]
                "hello"]).
Proof. vm_compute. reflexivity. Qed.

Example message_of_request_scenario_A :
  message_of_request 2 "multipart/form-data; boundary=X" scenario_A
  = Some (Ok (Message "X"
                [Part [Header ("Content-Disposition", "form-data")
                         {[ "name" := "f" ]}]
                   "hello"])).
Proof. vm_compute. reflexivity. Qed.

(** C5. The claim asks that scenario B yields one part with no header and
    the body [body].  The section handed to [parse_section] is
    [\r\nbody\r\n]: it holds no blank-line marker [\r\n\r\n], [found] is
    [npos], [found + 2] wraps to 1 and [found + 4] to 3.  The part comes out
    with one header, named by a lone carriage return, and the body [ody]. *)
Theorem parse_body_scenario_B :
  parse_body 2 "X" scenario_B
  = Some (Ok [Part [Header (CR, EmptyString) ∅] "ody"]).
Proof. vm_compute. reflexivity. Qed.

(** Even a section that does start with the blank-line marker gets one
    header: the round of the header loop on the empty line appends the
    default-constructed [to_add]. *)
Example parse_section_blank_line_first :
  parse_section (crlf +:+ crlf +:+ "body" +:+ crlf)
  = Ok (Part [Header (EmptyString, EmptyString) ∅] "body").
Proof. vm_compute. reflexivity. Qed.

Example parse_section_scenario_B :
  Str.find (crlf +:+ "body" +:+ crlf) (crlf +:+ crlf) = Str.npos
  ∧ Str.npos +ₛ 2 = 1 ∧ Str.npos +ₛ 4 = 3
  ∧ parse_section (crlf +:+ "body" +:+ crlf)
    = Ok (Part [Header (CR, EmptyString) ∅] "ody").
Proof. repeat split; vm_compute; reflexivity. Qed.

(** ** Serializing one part *)

Lemma dump_part_in_range iteration (m : message) (i : nat) (item : part) :
  parts m !! i = Some item →
  N.of_nat i < SizeT.modulus →
  dump_part iteration m (Z.of_nat i) = Ok (dump_item iteration item).
Proof.
  intros Hi Hfit. unfold dump_part.
  assert (SizeT.of_int (Z.of_nat i) = N.of_nat i) as ->.
  { unfold SizeT.of_int. rewrite Z.mod_small by lia. lia. }
  apply lookup_lt_Some in Hi as Hlt.
  destruct (N.ltb_spec (N.of_nat i) (N.of_nat (length (parts m)))); [|lia].
  rewrite Nat2N.id, Hi. reflexivity.
Qed.

(** C7, as the code has it. [dump(int)] reads [parts[part_]] with the
    unchecked [operator[]]: for an index at or beyond the number of parts
    nothing is thrown, the access is undefined behaviour. *)
Theorem dump_part_beyond_parts_unchecked iteration (m : message) (part_ : Z) :
  N.of_nat (length (parts m)) ≤ SizeT.of_int part_ →
  dump_part iteration m part_ = Undefined.
Proof.
  intros Hge. unfold dump_part.
  destruct (N.ltb_spec (SizeT.of_int part_) (N.of_nat (length (parts m))));
    [lia | reflexivity].
Qed.

Lemma dump_part_beyond_parts_unchecked_witness :
  N.of_nat (length (parts (Message "X" []))) ≤ SizeT.of_int 0
  ∧ dump_part map_to_list (Message "X" []) 0 = Undefined.
Proof.
  split.
  - vm_compute. discriminate.
  - apply (dump_part_beyond_parts_unchecked map_to_list (Message "X" []) 0).
    vm_compute. discriminate.
Defined.

(** C7, as the claim states it, fails: no [std::out_of_range] is raised for
    index 0 of a message without parts. *)
Lemma dump_part_no_out_of_range_error :
  (length (parts (Message "X" [])) ≤ 0)%nat
  ∧ dump_part map_to_list (Message "X" []) 0 ≠ OutOfRange.
Proof. split; [reflexivity | discriminate]. Qed.

(** ** Body splitting: empty sections *)

Lemma parse_body_body_cases delimiter body sections body' sections' :
  parse_body_body delimiter (body, sections) = Ok (body', sections') →
  ∃ section,
    Str.substr body 0 (Str.find body delimiter) = Ok section
    ∧ Str.erase body 0 (Str.find body delimiter +ₛ Str.size delimiter +ₛ 2)
      = Ok body'
    ∧ ((section = EmptyString ∧ sections' = sections)
       ∨ (section ≠ EmptyString
          ∧ ∃ p, parse_section section = Ok p ∧ sections' = sections ++ [p])).
Proof.
  unfold parse_body_body. intros H.
  destruct (Str.substr body 0 _) as [section| |]; simpl in H; try discriminate.
  destruct (Str.erase body 0 _) as [b| |]; simpl in H; try discriminate.
  exists section. split; [reflexivity|].
  destruct section as [|c section]; simpl in H.
  - injection H as <- <-. split; [reflexivity|]. left. done.
  - destruct (parse_section (String c section)) as [p| |] eqn:Hp;
      simpl in H; try discriminate.
    injection H as <- <-. split; [reflexivity|]. right. split; [done|].
    exists p. done.
Qed.

Lemma parse_body_loop_sections fuel delimiter :
  ∀ body sections body' sections',
    while fuel (λ st, negb (String.eqb st.1 crlf)) (parse_body_body delimiter)
      (body, sections) = Some (Ok (body', sections')) →
    ∃ secs new,
      cut_sections fuel delimiter body = Some secs
      ∧ sections' = sections ++ new
      ∧ Forall2 (λ s p, parse_section s = Ok p)
          (filter (λ s, s ≠ EmptyString) secs) new.
Proof.
  induction fuel as [|fuel IH]; intros body sections body' sections' H.
  - simpl in H. simpl. destruct (negb (String.eqb body crlf)); [discriminate|].
    exists [], []. rewrite app_nil_r. injection H as _ <-. done.
  - rewrite while_unfold in H. cbn [fst] in H. cbn [cut_sections].
    destruct (negb (String.eqb body crlf)).
    + destruct (parse_body_body delimiter (body, sections)) as [[b1 s1]| |] eqn:Hb;
        try discriminate.
      apply parse_body_body_cases in Hb as (section & Hsub & Her & Hcase).
      rewrite Hsub, Her.
      destruct (IH _ _ _ _ H) as (secs & new & Hcut & -> & Hall).
      rewrite Hcut. cbn [fmap option_fmap option_map].
      destruct Hcase as [[-> ->] | (Hne & p & Hp & ->)].
      * exists (EmptyString :: secs), new. split; [reflexivity|].
        split; [reflexivity|].
        rewrite filter_cons_False by (intros Hn; apply Hn; reflexivity).
        exact Hall.
      * exists (section :: secs), (p :: new). split; [reflexivity|].
        split; [rewrite <- app_assoc; reflexivity|].
        rewrite filter_cons_True by exact Hne.
        constructor; assumption.
    + exists [], []. rewrite app_nil_r. injection H as _ <-. done.
Qed.

(** C9. Every part that body splitting returns comes from a non-empty
    section: the parts are, in order, the parses of the non-empty section
    texts cut off the buffer, and the empty ones give no part. *)
Theorem parse_body_drops_empty_sections fuel (boundary body : string)
    (ps : list part) :
  parse_body fuel boundary body = Some (Ok ps) →
  ∃ secs : list string,
    cut_sections fuel (dd +:+ boundary) body = Some secs
    ∧ Forall2 (λ s p, s ≠ EmptyString ∧ parse_section s = Ok p)
        (filter (λ s, s ≠ EmptyString) secs) ps.
Proof.
  unfold parse_body. intros H.
  destruct (while fuel _ _ _) as [[[b' ss]| |]|] eqn:Hw; simpl in H;
    try discriminate.
  injection H as ->.
  apply parse_body_loop_sections in Hw as (secs & new & Hcut & Heq & Hall).
  simpl in Heq. subst new. exists secs. split; [exact Hcut|].
  assert (Forall (λ s, s ≠ EmptyString) (filter (λ s, s ≠ EmptyString) secs))
    as Hne by (apply list.Forall_forall; intros s Hs;
               apply list_elem_of_filter in Hs as [Hs _]; exact Hs).
  induction Hall as [|s p l' ps' Hsp Hall IH]; constructor.
  - split; [by inversion Hne | exact Hsp].
  - apply IH. by inversion Hne.
Qed.

Lemma parse_body_drops_empty_sections_witness :
  ∃ secs : list string,
    cut_sections 2 (dd +:+ "X") scenario_A = Some secs
    ∧ Forall2 (λ s p, s ≠ EmptyString ∧ parse_section s = Ok p)
        (filter (λ s, s ≠ EmptyString) secs)
        [Part [Header ("Content-Disposition", "form-data")
                 {[ "name" := "f" ]}] "hello"].
Proof.
  apply (parse_body_drops_empty_sections 2 "X" scenario_A).
  vm_compute. reflexivity.
Defined.

(** Scenario A cuts two sections, the empty text before the first delimiter
    and the part; a body of delimiters alone has no part at all. *)
Example cut_sections_scenario_A :
  cut_sections 2 "--X" scenario_A
  = Some [EmptyString;
          "Content-Disposition: form-data; name=" +:+ quoted "f" +:+ crlf
          +:+ crlf +:+ "hello" +:+ crlf]
  ∧ cut_sections 3 "--X" ("--X" +:+ crlf +:+ "--X" +:+ crlf +:+ "--X--" +:+ crlf)
    = Some [EmptyString; EmptyString; EmptyString]
  ∧ parse_body 3 "X" ("--X" +:+ crlf +:+ "--X" +:+ crlf +:+ "--X--" +:+ crlf)
    = Some (Ok []).
Proof. repeat split; vm_compute; reflexivity. Qed.

(** ** [trim] and [pad] *)

Lemma get_app_length (a : string) (c : ascii) (b : string) :
  String.get (String.length a) (a +:+ String c b) = Some c.
Proof. induction a as [|x a IH]; [reflexivity | exact IH]. Qed.

Lemma at_app_size (a : string) (c : ascii) (b : string) :
  Str.at_ (a +:+ String c b) (Str.size a) = c.
Proof.
  unfold Str.at_, Str.size. by rewrite Nat2N.id, get_app_length.
Qed.

Lemma split_last (s : string) :
  s ≠ EmptyString →
  ∃ a c, s = a +:+ String c EmptyString.
Proof.
  induction s as [|x s IH]; [done|]. intros _.
  destruct s as [|y s].
  - by exists EmptyString, x.
  - destruct IH as (a & c & Ha); [done|]. exists (String x a), c.
    by rewrite app_String, <- Ha.
Qed.

Lemma size_pad (s : string) (c : ascii) : Str.size (pad s c) = Str.size s + 2.
Proof.
  unfold pad, Str.size. cbn [String.length]. rewrite length_app. simpl. lia.
Qed.

Lemma trim_pad (s : string) (c : ascii) :
  Str.size s + 2 < SizeT.modulus → trim (pad s c) c = Ok s.
Proof.
  intros Hfit. unfold trim. rewrite size_pad.
  destruct (N.ltb_spec 1 (Str.size s + 2)); [|lia].
  rewrite !sub_small by lia.
  assert (Str.at_ (pad s c) 0 = c) as -> by reflexivity.
  assert (Str.at_ (pad s c) (Str.size s + 2 - 1) = c) as ->.
  { replace (Str.size s + 2 - 1) with (Str.size (String c s)).
    - unfold pad. rewrite <- app_String. apply at_app_size.
    - unfold Str.size. cbn [String.length]. lia. }
  rewrite Ascii.eqb_refl. cbn [andb].
  change (pad s c) with (String c EmptyString +:+ (s +:+ Str.of_char c)).
  replace (Str.size s + 2 - 2) with (Str.size s) by lia.
  unfold Str.substr. rewrite !size_app.
  change (Str.size (String c EmptyString)) with 1.
  change (Str.size (Str.of_char c)) with 1.
  destruct (N.ltb_spec (1 + (Str.size s + 1)) 1); [lia|].
  rewrite N.min_l by lia. change (N.to_nat 1) with (String.length (String c EmptyString)).
  rewrite drop_app_length. unfold Str.size. rewrite Nat2N.id.
  by rewrite take_app_length.
Qed.

(** [trim] returns its argument, or its argument without the quotes around
    it. *)
Lemma trim_cases (s : string) :
  Str.size s < SizeT.modulus →
  ∃ t, trim s dquote = Ok t ∧ (t = s ∨ s = pad t dquote).
Proof.
  intros Hfit. unfold trim.
  destruct (1 <? Str.size s) eqn:Hlen; cbn [andb]; [|eauto].
  apply N.ltb_lt in Hlen.
  destruct (Ascii.eqb_spec (Str.at_ s 0) dquote) as [H0|]; cbn [andb]; [|eauto].
  destruct (Ascii.eqb_spec (Str.at_ s (Str.size s -ₛ 1)) dquote) as [H1|];
    [|eauto].
  rewrite sub_small in H1 by lia.
  destruct s as [|c s]; [by vm_compute in Hlen|].
  change (Str.at_ (String c s) 0) with c in H0. subst c.
  destruct (split_last s) as (t & c & ->).
  { intros ->. by vm_compute in Hlen. }
  assert (Str.size (String dquote (t +:+ String c EmptyString)) = Str.size t + 2) as Hsz.
  { unfold Str.size. cbn [String.length]. rewrite length_app. simpl. lia. }
  rewrite Hsz in *.
  replace (Str.size t + 2 - 1) with (Str.size (String dquote t)) in H1
    by (unfold Str.size; cbn [String.length]; lia).
  rewrite <- app_String, at_app_size in H1. subst c.
  exists t. split; [|by right].
  change (String dquote (t +:+ String dquote EmptyString)) with (pad t dquote).
  pose proof (trim_pad t dquote) as Htp. unfold trim in Htp.
  rewrite size_pad in Htp.
  destruct (N.ltb_spec 1 (Str.size t + 2)); [|lia].
  assert (Str.at_ (pad t dquote) 0 = dquote) as E0 by reflexivity.
  assert (Str.at_ (pad t dquote) (Str.size t + 2 -ₛ 1) = dquote) as E1.
  { rewrite sub_small by lia.
    replace (Str.size t + 2 - 1) with (Str.size (String dquote t))
      by (unfold Str.size; cbn [String.length]; lia).
    unfold pad. rewrite <- app_String. apply at_app_size. }
  rewrite E0, E1, Ascii.eqb_refl in Htp. cbn [andb] in Htp.
  apply Htp. lia.
Qed.

Lemma trim_substring (s t : string) :
  Str.size s < SizeT.modulus → trim s dquote = Ok t → substring_of t s.
Proof.
  intros Hfit Ht. destruct (trim_cases s Hfit) as (t' & Ht' & Hcase).
  rewrite Ht in Ht'. injection Ht' as <-.
  destruct Hcase as [-> | ->]; [apply substring_of_refl|].
  exists (String dquote EmptyString), (String dquote EmptyString). reflexivity.
Qed.

(** ** One parameter token *)

Lemma param_of_token_with_eq (k raw : string) :
  has1 "=" k = false →
  Str.size (k +:+ "=" +:+ raw) < SizeT.modulus →
  param_of_token (k +:+ "=" +:+ raw)
  = (trimmed ←! trim raw dquote; Ok (k, trimmed)).
Proof.
  intros Hk Hfit. unfold param_of_token.
  rewrite !size_app in Hfit. change (Str.size "=") with 1 in Hfit.
  assert (Str.find (k +:+ "=" +:+ raw) "=" = Str.size k) as ->
    by exact (find_after_char_free "=" k raw Hk).
  rewrite add_small by lia.
  replace (Str.size k + 1) with (Str.size (k +:+ "=")) 
    by (rewrite size_app; reflexivity).
  rewrite <- app_assoc_s, substr_suffix by (unfold Str.npos, SizeT.max; lia).
  cbn [bind]. rewrite app_assoc_s, substr_prefix. reflexivity.
Qed.

Lemma param_of_token_without_eq (param : string) :
  has1 "=" param = false →
  Str.size param < SizeT.modulus →
  param_of_token param
  = (trimmed ←! trim param dquote; Ok (param, trimmed)).
Proof.
  intros Hk Hfit. unfold param_of_token.
  rewrite (find_no_char "=" param Hk).
  change (Str.npos +ₛ 1) with (Str.size EmptyString).
  rewrite <- (app_Empty param) at 1.
  rewrite substr_suffix by (unfold Str.npos, SizeT.max; lia).
  cbn [bind]. rewrite substr_whole by (unfold Str.npos, SizeT.max; lia).
  reflexivity.
Qed.

Lemma param_of_token_total (param : string) :
  Str.size param < SizeT.modulus →
  ∃ name trimmed, param_of_token param = Ok (name, trimmed).
Proof.
  intros Hfit.
  destruct (find_char_cases "=" param) as [k raw Hs Hk | Hk].
  - subst param.
    change (k +:+ String "=" raw) with (k +:+ "=" +:+ raw) in *.
    rewrite (param_of_token_with_eq k raw Hk Hfit).
    rewrite !size_app in Hfit.
    destruct (trim_cases raw) as (t & -> & _); [lia|]. eauto.
  - rewrite param_of_token_without_eq by assumption.
    destruct (trim_cases param) as (t & -> & _); [lia|]. eauto.
Qed.

(** ** The parameters loop *)

Lemma emplace_subseteq (k v : string) (m : gmap string string) :
  m ⊆ emplace k v m.
Proof.
  unfold emplace. destruct (m !! k) eqn:Hk; [done|].
  by apply insert_subseteq.
Qed.

Lemma emplace_fresh (k v : string) (m : gmap string string) :
  m !! k = None → emplace k v m = <[k:=v]> m.
Proof. intros Hk. unfold emplace. by rewrite Hk. Qed.

Lemma npos_not_size (s : string) :
  Str.size s + 1 < SizeT.modulus → (Str.size s =? Str.npos) = false.
Proof.
  intros H. apply N.eqb_neq. unfold Str.npos, SizeT.max. lia.
Qed.

(** A round on a line with a further ["; "]: the token before it is
    emplaced and the text after it is left. *)
Lemma parse_params_body_found (a b : string) (params : gmap string string) :
  has2 ";" " " a = false →
  Str.size (a +:+ "; " +:+ b) < SizeT.modulus →
  parse_params_body (a +:+ "; " +:+ b, params)
  = ('(name, trimmed) ←! param_of_token a;
     Ok (b, emplace name trimmed params)).
Proof.
  intros Ha Hfit. unfold parse_params_body.
  assert (Str.find (a +:+ "; " +:+ b) "; " = Str.size a) as ->
    by (apply (find_after_prefix ";" " " EmptyString a b); done).
  rewrite !size_app in Hfit. change (Str.size "; ") with 2 in Hfit.
  rewrite substr_prefix. cbn [bind].
  rewrite npos_not_size by lia. cbn [negb].
  rewrite add_small by lia.
  replace (Str.size a + 2) with (Str.size (a +:+ "; "))
    by (rewrite size_app; reflexivity).
  rewrite <- app_assoc_s, erase_prefix. reflexivity.
Qed.

(** A round on a line without ["; "]: the whole line is the token, and
    nothing is left. *)
Lemma parse_params_body_last (line : string) (params : gmap string string) :
  has2 ";" " " line = false →
  Str.size line < SizeT.modulus →
  parse_params_body (line, params)
  = ('(name, trimmed) ←! param_of_token line;
     Ok (EmptyString, emplace name trimmed params)).
Proof.
  intros Ha Hfit. unfold parse_params_body.
  assert (Str.find line "; " = Str.npos) as ->
    by (apply (find_no_pair ";" " " EmptyString line); done).
  rewrite substr_whole by (unfold Str.npos, SizeT.max; lia).
  reflexivity.
Qed.

(** Every round emplaces one pair and shortens the line. *)
Lemma parse_params_body_step (line : string) (params : gmap string string) :
  line ≠ EmptyString →
  Str.size line < SizeT.modulus →
  ∃ line' name trimmed,
    parse_params_body (line, params)
    = Ok (line', emplace name trimmed params)
    ∧ (String.length line' < String.length line)%nat.
Proof.
  intros Hne Hfit.
  destruct (find_pair_cases ";" " " line) as [a b Hs Ha | Ha].
  - subst line. rewrite parse_params_body_found by assumption.
    rewrite !size_app in Hfit.
    destruct (param_of_token_total a) as (name & t & ->); [lia|].
    exists b, name, t. split; [reflexivity|].
    rewrite !length_app. simpl. lia.
  - rewrite parse_params_body_last by assumption.
    destruct (param_of_token_total line) as (name & t & ->); [lia|].
    exists EmptyString, name, t. split; [reflexivity|].
    destruct line; [done | simpl; lia].
Qed.

Lemma size_lt_of_length (a b : string) :
  (String.length a ≤ String.length b)%nat →
  Str.size b < SizeT.modulus → Str.size a < SizeT.modulus.
Proof. unfold Str.size. lia. Qed.

(** The loop ends on every line, and entries present in the map when it
    starts are never changed. *)
Lemma parse_params_loop_total (fuel : nat) :
  ∀ (line : string) (params : gmap string string),
    Str.size line < SizeT.modulus →
    (String.length line < fuel)%nat →
    ∃ ps, while fuel (λ st, negb (Str.empty st.1)) parse_params_body
            (line, params) = Some (Ok (EmptyString, ps))
          ∧ params ⊆ ps.
Proof.
  induction fuel as [|fuel IH]; intros line params Hfit Hfuel; [lia|].
  rewrite while_unfold. cbn [fst].
  destruct line as [|c line]; [by exists params|]. cbn [Str.empty negb].
  destruct (parse_params_body_step (String c line) params)
    as (line' & name & t & -> & Hlt); [done | exact Hfit |].
  destruct (IH line' (emplace name t params)) as (ps & -> & Hsub).
  - eapply size_lt_of_length; [|exact Hfit]. lia.
  - lia.
  - exists ps. split; [reflexivity|].
    etrans; [apply emplace_subseteq | exact Hsub].
Qed.

Lemma parse_params_total (line : string) (params : gmap string string) :
  Str.size line < SizeT.modulus →
  ∃ ps, parse_params line params = Ok ps ∧ params ⊆ ps.
Proof.
  intros Hfit. unfold parse_params.
  destruct (parse_params_loop_total (S (String.length line)) line params)
    as (ps & -> & Hsub); [exact Hfit | lia |].
  by exists ps.
Qed.

(** C10. A parameter that is not yet in the map gets the value of the token
    that introduces it, and keeps it whatever follows on the line: later
    tokens with the same name leave no trace in the map. *)
Theorem parse_params_keeps_first_value (name raw rest : string)
    (params : gmap string string) :
  has1 "=" name = false →
  has2 ";" " " (name +:+ "=" +:+ raw) = false →
  params !! name = None →
  Str.size (name +:+ "=" +:+ raw +:+ "; " +:+ rest) < SizeT.modulus →
  ∃ ps trimmed,
    parse_params (name +:+ "=" +:+ raw +:+ "; " +:+ rest) params = Ok ps
    ∧ trim raw dquote = Ok trimmed
    ∧ ps !! name = Some trimmed.
Proof.
  intros Hname Htok Hfresh Hfit.
  set (token := name +:+ "=" +:+ raw).
  assert (name +:+ "=" +:+ raw +:+ "; " +:+ rest = token +:+ "; " +:+ rest)
    as Hline by (unfold token; by rewrite !app_assoc_s).
  rewrite Hline in *. clear Hline.
  pose proof Hfit as Hfit'. rewrite !size_app in Hfit'.
  unfold parse_params. rewrite while_unfold. cbn [fst].
  assert (Str.empty (token +:+ "; " +:+ rest) = false) as ->.
  { apply empty_false. intros Hempty.
    apply (f_equal String.length) in Hempty.
    rewrite !length_app in Hempty. simpl in Hempty. lia. }
  cbn [negb]. rewrite parse_params_body_found by assumption.
  unfold token at 1. rewrite param_of_token_with_eq by (fold token; lia || done).
  destruct (trim_cases raw) as (t & Ht & _).
  { unfold token in Hfit'. rewrite !size_app in Hfit'. lia. }
  rewrite Ht. cbn [bind].
  destruct (parse_params_loop_total (String.length (token +:+ "; " +:+ rest))
              rest (emplace name t params)) as (ps & -> & Hsub).
  - lia.
  - rewrite !length_app. simpl. lia.
  - exists ps, t. split; [reflexivity|]. split; [reflexivity|].
    eapply lookup_weaken; [|exact Hsub].
    rewrite emplace_fresh by exact Hfresh. apply lookup_insert_eq.
Qed.

Lemma parse_params_keeps_first_value_witness :
  ∃ ps trimmed,
    parse_params ("x" +:+ "=" +:+ "1" +:+ "; " +:+ "y=2; x=3") ∅ = Ok ps
    ∧ trim "1" dquote = Ok trimmed
    ∧ ps !! "x" = Some trimmed.
Proof.
  apply (parse_params_keeps_first_value "x" "1" "y=2; x=3" ∅).
  - reflexivity.
  - reflexivity.
  - reflexivity.
  - vm_compute. reflexivity.
Defined.

(** On a whole header line: of the two [x] parameters the first is kept. *)
Example parse_section_head_duplicate_parameter :
  parse_section_head ("A: b; x=1; y=2; x=3" +:+ crlf) (Part [] EmptyString)
  = Ok (Part [Header ("A", "b") {[ "x" := "1"; "y" := "2" ]}] EmptyString).
Proof. vm_compute. reflexivity. Qed.

(** ** The primary pair *)

Lemma split_header_found (n v : string) :
  has2 ":" " " n = false →
  Str.size (n +:+ ": " +:+ v) < SizeT.modulus →
  split_header (n +:+ ": " +:+ v) = Ok (n, v).
Proof.
  intros Hn Hfit. unfold split_header.
  assert (Str.find (n +:+ ": " +:+ v) ": " = Str.size n) as ->
    by (apply (find_after_prefix ":" " " EmptyString n v); done).
  rewrite !size_app in Hfit. change (Str.size ": ") with 2 in Hfit.
  rewrite substr_prefix. cbn [bind]. rewrite add_small by lia.
  replace (Str.size n + 2) with (Str.size (n +:+ ": "))
    by (rewrite size_app; reflexivity).
  rewrite <- app_assoc_s, substr_suffix by (unfold Str.npos, SizeT.max; lia).
  reflexivity.
Qed.

(** Without [": "] the search returns [npos]: the name is the whole
    segment and the value starts at [npos + 2], that is at offset 1. *)
Lemma split_header_not_found (c : ascii) (header : string) :
  has2 ":" " " (String c header) = false →
  Str.size (String c header) < SizeT.modulus →
  split_header (String c header) = Ok (String c header, header).
Proof.
  intros Hn Hfit. unfold split_header.
  assert (Str.find (String c header) ": " = Str.npos) as ->
    by (apply (find_no_pair ":" " " EmptyString); done).
  rewrite substr_whole by (unfold Str.npos, SizeT.max; lia). cbn [bind].
  change (Str.npos +ₛ 2) with (Str.size (String c EmptyString)).
  change (String c header) with (String c EmptyString +:+ header) at 1.
  rewrite substr_suffix; [reflexivity|].
  unfold Str.npos, SizeT.max. unfold Str.size in *. simpl in Hfit. lia.
Qed.

Lemma split_header_empty : split_header EmptyString = OutOfRange.
Proof. reflexivity. Qed.

Lemma split_header_wf (header n v : string) :
  Str.size header < SizeT.modulus →
  split_header header = Ok (n, v) →
  has2 ":" " " n = false ∧ substring_of n header ∧ substring_of v header.
Proof.
  intros Hfit Hs.
  destruct (find_pair_cases ":" " " header) as [a b Hh Ha | Ha].
  - subst header. rewrite split_header_found in Hs by assumption.
    injection Hs as <- <-. split; [exact Ha|].
    split; [apply substring_of_prefix|].
    rewrite <- app_assoc_s. apply substring_of_suffix.
  - destruct header as [|c header]; [discriminate|].
    rewrite split_header_not_found in Hs by assumption.
    injection Hs as <- <-. split; [exact Ha|].
    split; [apply substring_of_refl|].
    apply (substring_of_suffix (String c EmptyString) header).
Qed.

Lemma parse_primary_found (a b : string) :
  no_semi a →
  Str.size (a +:+ "; " +:+ b) < SizeT.modulus →
  parse_primary (a +:+ "; " +:+ b)
  = (value ←! split_header a; Ok (value, b)).
Proof.
  intros Ha Hfit. unfold parse_primary.
  assert (Str.find (a +:+ "; " +:+ b) "; " = Str.size a) as ->
    by (apply (find_after_prefix ";" " " EmptyString a b); done).
  rewrite !size_app in Hfit. change (Str.size "; ") with 2 in Hfit.
  rewrite substr_prefix. cbn [bind].
  rewrite npos_not_size by lia. cbn [negb].
  rewrite add_small by lia.
  replace (Str.size a + 2) with (Str.size (a +:+ "; "))
    by (rewrite size_app; reflexivity).
  rewrite <- app_assoc_s, erase_prefix. reflexivity.
Qed.

Lemma parse_primary_last (line : string) :
  no_semi line →
  Str.size line < SizeT.modulus →
  parse_primary line = (value ←! split_header line; Ok (value, EmptyString)).
Proof.
  intros Ha Hfit. unfold parse_primary.
  assert (Str.find line "; " = Str.npos) as ->
    by (apply (find_no_pair ";" " " EmptyString line); done).
  rewrite substr_whole by (unfold Str.npos, SizeT.max; lia).
  reflexivity.
Qed.

(** ** Malformed header lines *)

(** C6. The claim asks that a header line without [": "] gives no primary
    pair and that a parameter token without [=] gives an empty value.  The
    code does not test either [find]: for the line [abc] the pair is
    [(abc, bc)], for the token [flag] the parameter [flag] gets the value
    [flag], and a line that starts with ["; "] makes [substr] throw
    [std::out_of_range]. *)
Theorem parse_section_head_malformed_lines :
  parse_section_head ("abc" +:+ crlf) (Part [] EmptyString)
    = Ok (Part [Header ("abc", "bc") ∅] EmptyString)
  ∧ parse_section_head ("A: b; flag" +:+ crlf) (Part [] EmptyString)
    = Ok (Part [Header ("A", "b") {[ "flag" := "flag" ]}] EmptyString)
  ∧ parse_section_head ("; x=1" +:+ crlf) (Part [] EmptyString)
    = OutOfRange.
Proof. repeat split; vm_compute; reflexivity. Qed.

Example npos_wraps :
  Str.npos +ₛ 1 = 0 ∧ Str.npos +ₛ 2 = 1.
Proof. split; reflexivity. Qed.

(** ** Malformed lines, in general *)

(** A non-empty line without ["; "] and without [": "]: the pair is the
    line and the line without its first character. *)
Lemma header_of_line_without_colon (c : ascii) (line : string) :
  has2 ":" " " (String c line) = false →
  no_semi (String c line) →
  Str.size (String c line) < SizeT.modulus →
  header_of_line (String c line) = Ok (Header (String c line, line) ∅).
Proof.
  intros Hcolon Hsemi Hfit. unfold header_of_line. cbn [Str.empty negb].
  rewrite parse_primary_last, split_header_not_found by done.
  reflexivity.
Qed.

(** A line that starts with ["; "] has an empty main segment, and
    [substr(npos + 2)] throws. *)
Lemma header_of_line_leading_semi (rest : string) :
  Str.size ("; " +:+ rest) < SizeT.modulus →
  header_of_line ("; " +:+ rest) = OutOfRange.
Proof.
  intros Hfit. unfold header_of_line.
  change (Str.empty ("; " +:+ rest)) with false. cbn [negb].
  change (parse_primary ("; " +:+ rest))
    with (parse_primary (EmptyString +:+ "; " +:+ rest)).
  rewrite (parse_primary_found EmptyString rest) by done.
  reflexivity.
Qed.

(** ** What parsing builds: parameters *)

Lemma param_of_token_wf (param name trimmed : string) :
  no_semi param → no_crlf param →
  Str.size param < SizeT.modulus →
  param_of_token param = Ok (name, trimmed) →
  wf_param name trimmed.
Proof.
  intros Hsemi Hcrlf Hfit Hp.
  assert (has1 "=" name = false ∧ substring_of name param
          ∧ substring_of trimmed param) as (Heq & Hn & Ht).
  { destruct (find_char_cases "=" param) as [k raw Hs Hk | Hk].
    - subst param. change (k +:+ String "=" raw) with (k +:+ "=" +:+ raw) in *.
      rewrite param_of_token_with_eq in Hp by assumption.
      rewrite !size_app in Hfit.
      destruct (trim raw dquote) as [t| |] eqn:Ht; try discriminate.
      injection Hp as <- <-. split; [exact Hk|].
      split; [apply substring_of_prefix|].
      eapply substring_of_trans; [eapply trim_substring; [|exact Ht]; lia|].
      rewrite <- app_assoc_s. apply substring_of_suffix.
    - rewrite param_of_token_without_eq in Hp by assumption.
      destruct (trim param dquote) as [t| |] eqn:Ht; try discriminate.
      injection Hp as <- <-. split; [exact Hk|].
      split; [apply substring_of_refl|].
      by eapply trim_substring. }
  unfold wf_param, no_semi, no_crlf in *.
  eauto 10 using has2_substring.
Qed.

Lemma emplace_wf (k v : string) (m : gmap string string) :
  wf_param k v → map_Forall wf_param m → map_Forall wf_param (emplace k v m).
Proof.
  intros Hkv Hm. unfold emplace. destruct (m !! k); [exact Hm|].
  by apply map_Forall_insert_2.
Qed.

Lemma parse_params_body_wf (line line' : string) (params ps : gmap string string) :
  line ≠ EmptyString →
  no_crlf line → Str.size line < SizeT.modulus →
  map_Forall wf_param params →
  parse_params_body (line, params) = Ok (line', ps) →
  map_Forall wf_param ps ∧ substring_of line' line
  ∧ (String.length line' < String.length line)%nat.
Proof.
  intros Hne Hcrlf Hfit Hm Hb.
  destruct (find_pair_cases ";" " " line) as [a b Hs Ha | Ha].
  - subst line. rewrite parse_params_body_found in Hb by assumption.
    destruct (param_of_token a) as [[name t]| |] eqn:Ht; try discriminate.
    injection Hb as <- <-.
    assert (substring_of a (a +:+ pair_of ";" " " +:+ b)) as Hsub
      by apply substring_of_prefix.
    split; [|split].
    + apply emplace_wf; [|exact Hm].
      apply (param_of_token_wf a); try assumption.
      * by eapply has2_substring.
      * pose proof (size_substring _ _ Hsub). lia.
    + rewrite <- app_assoc_s. apply substring_of_suffix.
    + rewrite !length_app. simpl. lia.
  - rewrite parse_params_body_last in Hb by assumption.
    destruct (param_of_token line) as [[name t]| |] eqn:Ht; try discriminate.
    injection Hb as <- <-. split; [|split].
    + apply emplace_wf; [|exact Hm]. by apply (param_of_token_wf line).
    + exists EmptyString, line. reflexivity.
    + destruct line; [done | simpl; lia].
Qed.

Lemma parse_params_loop_wf (fuel : nat) :
  ∀ (line line' : string) (params ps : gmap string string),
    no_crlf line → Str.size line < SizeT.modulus →
    map_Forall wf_param params →
    while fuel (λ st, negb (Str.empty st.1)) parse_params_body (line, params)
      = Some (Ok (line', ps)) →
    map_Forall wf_param ps.
Proof.
  induction fuel as [|fuel IH]; intros line line' params ps Hcrlf Hfit Hm Hw.
  - simpl in Hw. destruct line; [|discriminate]. by injection Hw as <- <-.
  - rewrite while_unfold in Hw. cbn [fst] in Hw.
    destruct line as [|c line]; [by injection Hw as <- <-|].
    cbn [Str.empty negb] in Hw.
    destruct (parse_params_body (String c line, params)) as [[l1 p1]| |] eqn:Hb;
      try discriminate.
    apply parse_params_body_wf in Hb as (Hp1 & Hsub & Hlen); try done.
    apply (IH l1 line' p1 ps); try assumption.
    + unfold no_crlf in *. by eapply has2_substring.
    + pose proof (size_substring _ _ Hsub). lia.
Qed.

Lemma parse_params_wf (line : string) (ps : gmap string string) :
  no_crlf line → Str.size line < SizeT.modulus →
  parse_params line ∅ = Ok ps → map_Forall wf_param ps.
Proof.
  intros Hcrlf Hfit Hp. unfold parse_params in Hp.
  destruct (while _ _ _ _) as [[[l' ps']| |]|] eqn:Hw; try discriminate.
  injection Hp as <-.
  eapply parse_params_loop_wf; [exact Hcrlf | exact Hfit | | exact Hw].
  apply map_Forall_empty.
Qed.

(** ** What parsing builds: headers *)

Lemma header_of_line_wf (line : string) (h : header) :
  no_crlf line → Str.size line < SizeT.modulus →
  header_of_line line = Ok h → wf_header h.
Proof.
  intros Hcrlf Hfit Hh. unfold header_of_line in Hh.
  destruct line as [|c line]; cbn [Str.empty negb bind] in Hh.
  - change (parse_params EmptyString ∅) with (Ok (∅ : gmap string string)) in Hh.
    injection Hh as <-. unfold wf_header. cbn [value params fst snd].
    split_and!; try reflexivity. apply map_Forall_empty.
  - set (l := String c line) in *.
    assert (∃ header rest,
              no_semi header ∧ substring_of header l ∧ substring_of rest l
              ∧ parse_primary l = (value ←! split_header header; Ok (value, rest)))
      as (header & rest & Hsemi & Hsubh & Hsubr & Hpp).
    { destruct (find_pair_cases ";" " " l) as [a b Hl Ha | Ha].
      - exists a, b. rewrite Hl in *. split; [exact Ha|].
        split; [apply substring_of_prefix|].
        split; [rewrite <- app_assoc_s; apply substring_of_suffix|].
        by apply parse_primary_found.
      - exists l, EmptyString. split; [exact Ha|].
        split; [apply substring_of_refl|].
        split; [exists l, EmptyString; by rewrite app_Empty, app_empty_r|].
        by apply parse_primary_last. }
    rewrite Hpp in Hh. clear Hpp.
    destruct (split_header header) as [[n v]| |] eqn:Hsplit; try discriminate.
    cbn [bind] in Hh.
    destruct (parse_params rest ∅) as [ps| |] eqn:Hps; try discriminate.
    injection Hh as <-.
    pose proof (size_substring _ _ Hsubh) as Hsz.
    pose proof (size_substring _ _ Hsubr) as Hsz'.
    apply split_header_wf in Hsplit as (Hcolon & Hn & Hv); [|lia].
    unfold wf_header, no_semi, no_crlf in *. cbn [value params fst snd].
    assert (has2 "013" "010" header = false) by (by eapply has2_substring).
    split_and!; try (by eapply has2_substring); [exact Hcolon|].
    eapply parse_params_wf; [|  |exact Hps].
      * unfold no_crlf. by eapply has2_substring.
      * lia.
Qed.

(** One round of the header loop, on a block with a further CRLF and on a
    block without. *)
Lemma parse_section_head_body_found (a b : string) (hs : list header) :
  no_crlf a →
  Str.size (a +:+ crlf +:+ b) < SizeT.modulus →
  parse_section_head_body (a +:+ crlf +:+ b, hs)
  = (to_add ←! header_of_line a; Ok (b, hs ++ [to_add])).
Proof.
  intros Ha Hfit. unfold parse_section_head_body.
  assert (Str.find (a +:+ crlf +:+ b) crlf = Str.size a) as ->
    by (apply (find_after_prefix "013" "010" EmptyString a b); done).
  rewrite !size_app in Hfit. change (Str.size crlf) with 2 in Hfit.
  rewrite substr_prefix. cbn [bind]. rewrite add_small by lia.
  replace (Str.size a + 2) with (Str.size (a +:+ crlf))
    by (rewrite size_app; reflexivity).
  rewrite <- app_assoc_s, erase_prefix. reflexivity.
Qed.

Lemma parse_section_head_body_not_found (lines : string) (hs : list header) :
  no_crlf lines →
  Str.size lines < SizeT.modulus →
  parse_section_head_body (lines, hs)
  = (to_add ←! header_of_line lines; Ok (Str.drop 1 lines, hs ++ [to_add])).
Proof.
  intros Ha Hfit. unfold parse_section_head_body.
  assert (Str.find lines crlf = Str.npos) as ->
    by (apply (find_no_pair "013" "010" EmptyString lines); done).
  rewrite substr_whole by (unfold Str.npos, SizeT.max; lia). cbn [bind].
  change (Str.npos +ₛ 2) with 1. rewrite erase_0. cbn [bind].
  destruct lines as [|c lines]; [reflexivity|].
  rewrite N.min_l; [reflexivity|]. unfold Str.size. simpl. lia.
Qed.

Lemma parse_section_head_body_wf (lines lines' : string) (hs hs' : list header) :
  lines ≠ EmptyString →
  Str.size lines < SizeT.modulus →
  Forall wf_header hs →
  parse_section_head_body (lines, hs) = Ok (lines', hs') →
  Forall wf_header hs' ∧ hs' ≠ [] ∧ substring_of lines' lines
  ∧ (String.length lines' < String.length lines)%nat.
Proof.
  intros Hne Hfit Hhs Hb.
  destruct (find_pair_cases "013" "010" lines) as [a b Hl Ha | Ha].
  - subst lines. change (pair_of "013" "010") with crlf in *.
    rewrite parse_section_head_body_found in Hb by assumption.
    destruct (header_of_line a) as [h| |] eqn:Hh; try discriminate.
    injection Hb as <- <-.
    pose proof (size_substring a _ (substring_of_prefix a (crlf +:+ b))).
    apply header_of_line_wf in Hh; [|exact Ha|lia].
    split; [apply Forall_app; split; [exact Hhs | by constructor]|].
    split; [by destruct hs|].
    split; [rewrite <- app_assoc_s; apply substring_of_suffix|].
    rewrite !length_app. simpl. lia.
  - rewrite parse_section_head_body_not_found in Hb by assumption.
    destruct (header_of_line lines) as [h| |] eqn:Hh; try discriminate.
    injection Hb as <- <-.
    apply header_of_line_wf in Hh; [|exact Ha|lia].
    split; [apply Forall_app; split; [exact Hhs | by constructor]|].
    split; [by destruct hs|].
    split; [exact (substring_of_drop 1 lines)|].
    destruct lines; [done | simpl; lia].
Qed.

Lemma parse_section_head_loop_wf (fuel : nat) :
  ∀ (lines lines' : string) (hs hs' : list header),
    Str.size lines < SizeT.modulus →
    Forall wf_header hs →
    lines ≠ EmptyString ∨ hs ≠ [] →
    while fuel (λ st, negb (Str.empty st.1)) parse_section_head_body
      (lines, hs) = Some (Ok (lines', hs')) →
    Forall wf_header hs' ∧ hs' ≠ [].
Proof.
  induction fuel as [|fuel IH]; intros lines lines' hs hs' Hfit Hhs Hne Hw.
  - simpl in Hw. destruct lines; [|discriminate]. injection Hw as <- <-.
    split; [exact Hhs|]. by destruct Hne.
  - rewrite while_unfold in Hw. cbn [fst] in Hw.
    destruct lines as [|c lines].
    { injection Hw as <- <-. split; [exact Hhs|]. by destruct Hne. }
    cbn [Str.empty negb] in Hw.
    destruct (parse_section_head_body (String c lines, hs)) as [[l1 h1]| |] eqn:Hb;
      try discriminate.
    apply parse_section_head_body_wf in Hb as (Hh1 & Hne1 & Hsub & Hlen);
      try done.
    apply (IH l1 lines' h1 hs'); try assumption; [|by right].
    pose proof (size_substring _ _ Hsub). lia.
Qed.

(** Every part that [parse_section] builds from a non-empty section has at
    least one header, and its headers are well formed. *)
Lemma parse_section_wf (section : string) (p : part) :
  section ≠ EmptyString →
  Str.size section < SizeT.modulus →
  parse_section section = Ok p →
  wf_part p.
Proof.
  intros Hne Hfit Hp. unfold parse_section in Hp.
  rewrite substr_0, erase_0 in Hp. cbn [bind] in Hp.
  set (found := Str.find section (crlf +:+ crlf)) in *.
  set (head_line := Str.take _ section) in *.
  assert (head_line ≠ EmptyString) as Hhead.
  { unfold head_line. destruct section as [|c section]; [done|].
    assert (N.to_nat (N.min (found +ₛ 2) (Str.size (String c section))) ≠ O)
      as Hpos; [|by destruct (N.to_nat _)].
    assert (1 ≤ Str.size (String c section))
      by (unfold Str.size; cbn [String.length]; lia).
    assert (found +ₛ 2 ≠ 0); [|lia].
    unfold found. destruct (find_cases (String c section) (crlf +:+ crlf))
      as [a b Hs _ | _]; [|done].
    rewrite Hs, !size_app in Hfit. change (Str.size crlf) with 2 in Hfit.
    rewrite add_small by lia. lia. }
  assert (Str.size head_line < SizeT.modulus) as Hfit'.
  { pose proof (size_substring _ _ (substring_of_take
      (N.to_nat (N.min (found +ₛ 2) (Str.size section))) section)).
    unfold head_line. lia. }
  unfold parse_section_head in Hp. cbn [headers body] in Hp.
  destruct (while _ _ _ _) as [[[l' hs]| |]|] eqn:Hw; try discriminate.
  cbn [run bind] in Hp.
  destruct (Str.substr _ 0 _) as [bd| |]; try discriminate.
  injection Hp as <-.
  apply parse_section_head_loop_wf in Hw as [Hall Hnil];
    [by split | exact Hfit' | constructor | by left].
Qed.

(** ** The loops over lines and parameters always end *)

Lemma split_header_returns (header : string) :
  Str.size header < SizeT.modulus →
  (∃ pair, split_header header = Ok pair) ∨ split_header header = OutOfRange.
Proof.
  intros Hfit.
  destruct (find_pair_cases ":" " " header) as [a b Hh Ha | Ha].
  - subst header. left. exists (a, b). by apply split_header_found.
  - destruct header as [|c header]; [by right|].
    left. eexists. by apply split_header_not_found.
Qed.

Lemma header_of_line_returns (line : string) :
  Str.size line < SizeT.modulus →
  (∃ h, header_of_line line = Ok h) ∨ header_of_line line = OutOfRange.
Proof.
  intros Hfit. unfold header_of_line.
  destruct line as [|c line]; cbn [Str.empty negb].
  { left. by eexists. }
  set (l := String c line) in *.
  assert (∃ header rest,
            Str.size header ≤ Str.size l ∧ Str.size rest ≤ Str.size l
            ∧ parse_primary l = (value ←! split_header header; Ok (value, rest)))
    as (header & rest & Hh & Hr & ->).
  { destruct (find_pair_cases ";" " " l) as [a b Hl Ha | Ha].
    - exists a, b. rewrite Hl in *. rewrite !size_app.
      split; [lia|]. split; [lia|]. by apply parse_primary_found.
    - exists l, EmptyString. split; [lia|].
      split; [unfold Str.size; simpl; lia|]. by apply parse_primary_last. }
  destruct (split_header_returns header) as [[pair ->] | ->]; [lia| |by right].
  cbn [bind]. destruct (parse_params_total rest ∅) as (ps & -> & _); [lia|].
  left. by eexists.
Qed.

Lemma parse_section_head_loop_returns (fuel : nat) :
  ∀ (lines : string) (hs : list header),
    Str.size lines < SizeT.modulus →
    (String.length lines < fuel)%nat →
    (∃ hs', while fuel (λ st, negb (Str.empty st.1)) parse_section_head_body
              (lines, hs) = Some (Ok (EmptyString, hs')))
    ∨ while fuel (λ st, negb (Str.empty st.1)) parse_section_head_body
        (lines, hs) = Some OutOfRange.
Proof.
  induction fuel as [|fuel IH]; intros lines hs Hfit Hfuel; [lia|].
  rewrite while_unfold. cbn [fst].
  destruct lines as [|c lines]; [left; by eexists|]. cbn [Str.empty negb].
  set (l := String c lines) in *.
  assert (∃ line lines',
            Str.size line ≤ Str.size l
            ∧ (String.length lines' < String.length l)%nat
            ∧ parse_section_head_body (l, hs)
              = (to_add ←! header_of_line line; Ok (lines', hs ++ [to_add])))
    as (line & lines' & Hline & Hlen & ->).
  { destruct (find_pair_cases "013" "010" l) as [a b Hl Ha | Ha].
    - exists a, b. rewrite Hl in *. rewrite !size_app, !length_app.
      split; [lia|]. split; [simpl; lia|].
      by apply parse_section_head_body_found.
    - exists l, (Str.drop 1 l). split; [lia|]. split; [simpl; lia|].
      by apply parse_section_head_body_not_found. }
  destruct (header_of_line_returns line) as [[h ->] | ->]; [lia| |by right].
  cbn [bind]. apply IH; [unfold Str.size in *; lia | lia].
Qed.

(** [parse_section] returns a part or throws [std::out_of_range]; its loops
    never run out of the fuel they are given. *)
Lemma parse_section_returns (section : string) :
  Str.size section < SizeT.modulus →
  (∃ p, parse_section section = Ok p) ∨ parse_section section = OutOfRange.
Proof.
  intros Hfit. unfold parse_section. rewrite substr_0, erase_0. cbn [bind].
  set (head_line := Str.take _ section).
  assert (Str.size head_line ≤ Str.size section) as Hhead
    by apply size_substring, substring_of_take.
  unfold parse_section_head. cbn [headers body].
  destruct (parse_section_head_loop_returns (S (String.length head_line))
              head_line []) as [[hs ->] | ->]; [lia | lia | |by right].
  cbn [run bind]. rewrite substr_0. left. by eexists.
Qed.

(** ** Re-parsing serialized parameters *)

(** Joining a text free of the pair [x y] to one that starts with a
    character other than [y]. *)
Lemma has2_join (x y c : ascii) (a b : string) :
  c ≠ y → has2 x y a = false → has2 x y (String c b) = false →
  has2 x y (a +:+ String c b) = false.
Proof. intros Hc Ha Hb. by rewrite has2_app_String, Ha, Hb. Qed.

Lemma has2_skip (x y c : ascii) (b : string) :
  c ≠ x → has2 x y b = false → has2 x y (String c b) = false.
Proof. intros Hc Hb. by rewrite has2_String_ne. Qed.

Create HintDb has2 discriminated.
#[local] Hint Resolve has2_join has2_skip : has2.
#[local] Hint Extern 1 (_ ≠ _) => discriminate : has2.
#[local] Hint Extern 1 (has2 _ _ (String _ EmptyString) = false) =>
  reflexivity : has2.

(** The text of one parameter as [dump] writes it, without the leading
    ["; "]. *)
Lemma dump_param_token (it : string * string) :
  dump_param it = "; " +:+ (it.1 +:+ "=" +:+ pad it.2 dquote).
Proof. reflexivity. Qed.

Lemma token_no_semi (k v : string) :
  wf_param k v → no_semi (k +:+ "=" +:+ pad v dquote).
Proof.
  intros (_ & Hk & Hv & _). unfold no_semi in *.
  change (k +:+ "=" +:+ pad v dquote)
    with (k +:+ String "=" (String dquote (v +:+ String dquote EmptyString))).
  auto 12 with has2.
Qed.

Lemma token_no_crlf (k v : string) :
  wf_param k v → no_crlf (k +:+ "=" +:+ pad v dquote).
Proof.
  intros (_ & _ & _ & Hk & Hv). unfold no_crlf in *.
  change (k +:+ "=" +:+ pad v dquote)
    with (k +:+ String "=" (String dquote (v +:+ String dquote EmptyString))).
  auto 12 with has2.
Qed.

Lemma param_of_token_rendered (k v : string) :
  wf_param k v →
  Str.size (k +:+ "=" +:+ pad v dquote) < SizeT.modulus →
  param_of_token (k +:+ "=" +:+ pad v dquote) = Ok (k, v).
Proof.
  intros (Hk & _) Hfit. rewrite param_of_token_with_eq by assumption.
  rewrite !size_app, size_pad in Hfit. change (Str.size "=") with 1 in Hfit.
  rewrite trim_pad by lia. reflexivity.
Qed.

Lemma params_text_cons (it : string * string) (l : list (string * string)) :
  params_text (it :: l) = "; " +:+ tokens_text (it :: l).
Proof.
  unfold params_text. cbn [fmap list_fmap foldr tokens_text].
  rewrite dump_param_token. by rewrite !app_assoc_s.
Qed.

Lemma length_params_text (l : list (string * string)) :
  (length l ≤ String.length (params_text l))%nat.
Proof.
  induction l as [|it l IH]; [simpl; lia|].
  rewrite params_text_cons. cbn [tokens_text]. fold (params_text l).
  rewrite !length_app. simpl. lia.
Qed.

Lemma length_tokens_text (l : list (string * string)) :
  (length l ≤ String.length (tokens_text l))%nat.
Proof.
  destruct l as [|it l]; [simpl; lia|].
  cbn [tokens_text]. pose proof (length_params_text l).
  rewrite !length_app. simpl. lia.
Qed.

Lemma empty_app_String (a : string) (c : ascii) (b : string) :
  Str.empty (a +:+ String c b) = false.
Proof. by destruct a. Qed.

(** The loop on the serialized parameters inserts them one by one. *)
Lemma parse_params_loop_rendered (l : list (string * string)) :
  ∀ (acc : gmap string string) (fuel : nat),
    Forall (uncurry wf_param) l →
    NoDup l.*1 →
    (∀ k, k ∈ l.*1 → acc !! k = None) →
    Str.size (tokens_text l) < SizeT.modulus →
    (length l ≤ fuel)%nat →
    while fuel (λ st, negb (Str.empty st.1)) parse_params_body
      (tokens_text l, acc)
    = Some (Ok (EmptyString, foldl (λ m kv, <[kv.1:=kv.2]> m) acc l)).
Proof.
  induction l as [|[k v] l IH]; intros acc fuel Hwf Hnd Hfresh Hfit Hfuel.
  - by rewrite while_exit.
  - destruct fuel as [|fuel]; [simpl in Hfuel; lia|].
    apply Forall_cons in Hwf as [Hkv Hwf]. cbn [uncurry] in Hkv.
    cbn [fmap list_fmap fst] in Hnd. apply NoDup_cons in Hnd as [Hk Hnd].
    rewrite while_unfold. cbn [fst tokens_text snd].
    assert (Str.empty ((k +:+ "=" +:+ pad v dquote) +:+ params_text l) = false)
      as ->.
    { rewrite !app_assoc_s. change ("=" +:+ pad v dquote +:+ params_text l)
        with (String "=" (pad v dquote +:+ params_text l)).
      apply empty_app_String. }
    cbn [negb]. cbn [tokens_text fst snd] in Hfit.
    assert (acc !! k = None) as Hacc by (apply Hfresh; left).
    destruct l as [|it l].
    + change (params_text []) with EmptyString in *.
      rewrite app_empty_r in *.
      rewrite parse_params_body_last by (try apply token_no_semi; done).
      rewrite param_of_token_rendered by done. cbn [bind].
      rewrite emplace_fresh by done. by rewrite while_exit.
    + rewrite params_text_cons in *.
      pose proof Hfit as Hfit'. rewrite size_app in Hfit'.
      rewrite parse_params_body_found by (try apply token_no_semi; done).
      rewrite param_of_token_rendered by (done || lia). cbn [bind].
      rewrite emplace_fresh by done.
      rewrite IH; [reflexivity | done | done | | | simpl in *; lia].
      * intros k' Hk'. rewrite lookup_insert_ne; [apply Hfresh; by right|].
        intros ->. done.
      * rewrite !size_app in Hfit'. lia.
Qed.

Lemma foldl_insert_list_to_map (l : list (string * string)) :
  NoDup l.*1 →
  foldl (λ (m : gmap string string) kv, <[kv.1:=kv.2]> m) ∅ l = list_to_map l.
Proof.
  induction l as [|[k v] l IH] using rev_ind; [done|].
  rewrite fmap_app, NoDup_app. intros (Hnd & Hk & _).
  rewrite foldl_snoc, IH by done. cbn [fst snd].
  rewrite list_to_map_snoc; [done|].
  intros Hin. apply (Hk k Hin). by left.
Qed.

Lemma parse_params_rendered (l : list (string * string)) :
  Forall (uncurry wf_param) l →
  NoDup l.*1 →
  Str.size (tokens_text l) < SizeT.modulus →
  parse_params (tokens_text l) ∅ = Ok (list_to_map l).
Proof.
  intros Hwf Hnd Hfit. unfold parse_params.
  rewrite (parse_params_loop_rendered l ∅); try done.
  - cbn [run bind]. by rewrite foldl_insert_list_to_map.
  - pose proof (length_tokens_text l). lia.
Qed.

(** ** Re-parsing a serialized header *)

Lemma has2_app_params_text (x y : ascii) (a : string)
    (l : list (string * string)) :
  ";"%char ≠ y → has2 x y a = false → has2 x y (params_text l) = false →
  has2 x y (a +:+ params_text l) = false.
Proof.
  intros Hy Ha Hl. destruct l as [|it l].
  - change (params_text []) with EmptyString. by rewrite app_empty_r.
  - rewrite params_text_cons in *.
    change ("; " +:+ tokens_text (it :: l))
      with (String ";" (String " " (tokens_text (it :: l)))) in *.
    by apply has2_join.
Qed.

Lemma params_text_no_crlf (l : list (string * string)) :
  Forall (uncurry wf_param) l → no_crlf (params_text l).
Proof.
  induction 1 as [|[k v] l Hkv Hl IH]; [reflexivity|].
  rewrite params_text_cons. cbn [tokens_text fst snd]. unfold no_crlf in *.
  change ("; " +:+ (k +:+ "=" +:+ pad v dquote) +:+ params_text l)
    with (String ";" (String " " ((k +:+ "=" +:+ pad v dquote) +:+ params_text l))).
  do 2 (apply has2_skip; [discriminate|]).
  apply has2_app_params_text; [discriminate | by apply token_no_crlf | exact IH].
Qed.

Section Reparse.
Variable iteration : gmap string string → list (string * string).
Hypothesis iteration_perm : ∀ m, iteration m ≡ₚ map_to_list m.

Lemma iteration_NoDup (m : gmap string string) : NoDup (iteration m).*1.
Proof. rewrite iteration_perm. apply NoDup_fst_map_to_list. Qed.

Lemma iteration_wf (m : gmap string string) :
  map_Forall wf_param m → Forall (uncurry wf_param) (iteration m).
Proof. rewrite iteration_perm. by rewrite map_Forall_to_list. Qed.

Lemma iteration_list_to_map (m : gmap string string) :
  list_to_map (iteration m) = m.
Proof.
  rewrite (list_to_map_proper _ (map_to_list m)).
  - apply list_to_map_to_list.
  - apply iteration_NoDup.
  - apply iteration_perm.
Qed.

Lemma dump_header_line (h : header) :
  dump_header iteration h = header_line iteration h +:+ crlf.
Proof. unfold dump_header, header_line. by rewrite !app_assoc_s. Qed.

Lemma header_line_no_crlf (h : header) :
  wf_header h → no_crlf (header_line iteration h).
Proof.
  intros (_ & _ & _ & Hn & Hv & Hps). unfold header_line, no_crlf in *.
  change ((value h).1 +:+ ": " +:+ (value h).2 +:+ params_text (iteration (params h)))
    with ((value h).1 +:+
          String ":" (String " " ((value h).2 +:+ params_text (iteration (params h))))).
  apply has2_join; [discriminate | exact Hn |].
  do 2 (apply has2_skip; [discriminate|]).
  apply has2_app_params_text; [discriminate | exact Hv |].
  apply params_text_no_crlf. by apply iteration_wf.
Qed.

Lemma main_segment_no_semi (n v : string) :
  no_semi n → no_semi v → no_semi (n +:+ ": " +:+ v).
Proof.
  intros Hn Hv. unfold no_semi in *.
  change (n +:+ ": " +:+ v) with (n +:+ String ":" (String " " v)).
  auto 12 with has2.
Qed.

(** The line that [dump] writes for a well-formed header is parsed back to
    that header. *)
Lemma header_of_line_rendered (h : header) :
  wf_header h →
  Str.size (header_line iteration h) < SizeT.modulus →
  header_of_line (header_line iteration h) = Ok h.
Proof.
  intros Hwf Hfit. pose proof Hwf as (Hcolon & Hn & Hv & _ & _ & Hps).
  destruct h as [[n v] ps]. cbn [value params fst snd] in *.
  unfold header_of_line, header_line in *. cbn [value params fst snd] in *.
  assert (Str.empty (n +:+ ": " +:+ v +:+ params_text (iteration ps)) = false)
    as -> by apply (empty_app_String n ":").
  cbn [negb].
  pose proof (iteration_wf ps Hps) as Hl.
  pose proof (iteration_NoDup ps) as Hnd.
  pose proof (iteration_list_to_map ps) as Hmap.
  pose proof (main_segment_no_semi n v Hn Hv) as Hmain.
  destruct (iteration ps) as [|it l].
  - change (params_text []) with EmptyString in *.
    assert (n +:+ ": " +:+ v +:+ EmptyString = n +:+ ": " +:+ v) as E
      by (by rewrite app_empty_r).
    rewrite E in *.
    rewrite parse_primary_last, split_header_found by done.
    cbn [bind]. change (parse_params EmptyString ∅) with (Ok (∅ : gmap string string)).
    cbn [bind]. by rewrite <- Hmap.
  - rewrite params_text_cons in *.
    assert (n +:+ ": " +:+ v +:+ "; " +:+ tokens_text (it :: l)
            = (n +:+ ": " +:+ v) +:+ "; " +:+ tokens_text (it :: l)) as E
      by (by rewrite !app_assoc_s).
    rewrite E in *. pose proof Hfit as Hfit'. rewrite !size_app in Hfit'.
    rewrite parse_primary_found by done.
    rewrite split_header_found by (done || rewrite !size_app; lia).
    cbn [bind]. rewrite parse_params_rendered by (done || lia).
    cbn [bind]. by rewrite Hmap.
Qed.

(** ** Re-parsing a serialized header block *)

Lemma headers_text_cons (h : header) (hs : list header) :
  headers_text iteration (h :: hs)
  = header_line iteration h +:+ crlf +:+ headers_text iteration hs.
Proof.
  unfold headers_text. cbn [fmap list_fmap foldr].
  by rewrite dump_header_line, app_assoc_s.
Qed.

Lemma length_headers_text (hs : list header) :
  (length hs ≤ String.length (headers_text iteration hs))%nat.
Proof.
  induction hs as [|h hs IH]; [simpl; lia|].
  rewrite headers_text_cons, !length_app. simpl. lia.
Qed.

Lemma parse_section_head_loop_rendered (hs : list header) :
  ∀ (acc : list header) (fuel : nat),
    Forall wf_header hs →
    Str.size (headers_text iteration hs) < SizeT.modulus →
    (length hs ≤ fuel)%nat →
    while fuel (λ st, negb (Str.empty st.1)) parse_section_head_body
      (headers_text iteration hs, acc)
    = Some (Ok (EmptyString, acc ++ hs)).
Proof.
  induction hs as [|h hs IH]; intros acc fuel Hwf Hfit Hfuel.
  - rewrite while_exit by done. by rewrite app_nil_r.
  - destruct fuel as [|fuel]; [simpl in Hfuel; lia|].
    apply Forall_cons in Hwf as [Hh Hwf].
    rewrite while_unfold. cbn [fst]. rewrite headers_text_cons in *.
    assert (Str.empty (header_line iteration h +:+ crlf
                       +:+ headers_text iteration hs) = false) as ->
      by apply (empty_app_String _ "013").
    cbn [negb]. pose proof Hfit as Hfit'. rewrite !size_app in Hfit'.
    rewrite parse_section_head_body_found
      by (try apply header_line_no_crlf; done).
    rewrite header_of_line_rendered by (done || lia). cbn [bind].
    rewrite IH by (done || lia || simpl in *; lia).
    by rewrite <- app_assoc.
Qed.

Lemma parse_section_head_rendered (hs : list header) (b : string) :
  Forall wf_header hs →
  Str.size (headers_text iteration hs) < SizeT.modulus →
  parse_section_head (headers_text iteration hs) (Part [] b) = Ok (Part hs b).
Proof.
  intros Hwf Hfit. unfold parse_section_head. cbn [headers body].
  rewrite parse_section_head_loop_rendered; try done.
  pose proof (length_headers_text hs). lia.
Qed.

(** ** Re-parsing a serialized part *)

Lemma starts_with_crlf_line (l rest : string) :
  l ≠ EmptyString → no_crlf l →
  Str.starts_with crlf (l +:+ crlf +:+ rest) = false.
Proof.
  intros Hne Hl.
  change (Str.starts_with crlf (l +:+ crlf +:+ rest))
    with (Str.starts_with (pair_of "013" "010") (l +:+ crlf +:+ rest)).
  rewrite starts_with_pair_of.
  destruct l as [|c [|c' l]]; [done| |].
  - change (String c EmptyString +:+ crlf +:+ rest)
      with (String c (String "013" (String "010" rest))).
    cbn [head_is Str.drop]. change (Ascii.eqb "013" "010") with false.
    apply andb_false_r.
  - unfold no_crlf in Hl. cbn [has2 head_is] in Hl.
    apply orb_false_elim in Hl as [Hl _]. exact Hl.
Qed.

(** A line and its CRLF are skipped by the search for the blank-line
    marker when the text after them does not start with a CRLF. *)
Lemma first_occurrence_skip_line (l rest : string) :
  no_crlf l →
  Str.starts_with crlf rest = false →
  Str.first_occurrence (crlf +:+ crlf) (l +:+ crlf +:+ rest)
  = (λ i, String.length l + 2 + i)%nat
      <$> Str.first_occurrence (crlf +:+ crlf) rest.
Proof.
  intros Hl Hrest. induction l as [|c l IH].
  - rewrite app_Empty. change (crlf +:+ rest) with (String "013" (String "010" rest)).
    rewrite first_occurrence_String.
    assert (Str.starts_with (crlf +:+ crlf) (String "013" (String "010" rest))
            = false) as -> by exact Hrest.
    rewrite first_occurrence_String.
    assert (Str.starts_with (crlf +:+ crlf) (String "010" rest) = false) as ->
      by reflexivity.
    destruct (Str.first_occurrence (crlf +:+ crlf) rest); reflexivity.
  - unfold no_crlf in Hl. cbn [has2] in Hl.
    apply orb_false_elim in Hl as [Hc Hl].
    rewrite app_String, first_occurrence_String, (IH Hl).
    assert (Str.starts_with (crlf +:+ crlf) (String c (l +:+ crlf +:+ rest))
            = false) as ->.
    { destruct (Str.starts_with (crlf +:+ crlf)
                  (String c (l +:+ crlf +:+ rest))) eqn:Hs; [|reflexivity].
      apply (starts_with_pair "013" "010" crlf) in Hs as [Hx Hy].
      cbn [head_is Str.drop] in Hx, Hy. rewrite Hx in Hc. cbn [andb] in Hc.
      destruct l as [|c' l]; [discriminate Hy|].
      rewrite app_String in Hy. cbn [head_is] in Hy, Hc. congruence. }
    destruct (Str.first_occurrence (crlf +:+ crlf) rest); reflexivity.
Qed.

Lemma header_line_not_empty (h : header) :
  header_line iteration h ≠ EmptyString.
Proof.
  apply empty_false. apply (empty_app_String (value h).1 ":").
Qed.

(** In a serialized part the first blank-line marker is the one that ends
    the header block. *)
Lemma first_blank_line_rendered (hs : list header) (rest : string) :
  hs ≠ [] → Forall wf_header hs →
  ∃ block,
    headers_text iteration hs = block +:+ crlf
    ∧ Str.first_occurrence (crlf +:+ crlf)
        (headers_text iteration hs +:+ crlf +:+ rest)
      = Some (String.length block).
Proof.
  intros Hne Hwf. induction hs as [|h hs IH]; [done|]. clear Hne.
  apply Forall_cons in Hwf as [Hh Hwf].
  rewrite headers_text_cons. destruct hs as [|h' hs].
  - exists (header_line iteration h).
    change (headers_text iteration []) with EmptyString.
    split; [reflexivity|]. rewrite app_empty_r.
    rewrite app_assoc_s.
    apply (first_occurrence_after_prefix "013" "010" crlf); [done|].
    by apply header_line_no_crlf.
  - destruct IH as (block & Hblock & Hfirst); [done | exact Hwf |].
    exists (header_line iteration h +:+ crlf +:+ block). split.
    + by rewrite Hblock, !app_assoc_s.
    + rewrite !app_assoc_s.
      rewrite first_occurrence_skip_line.
      * rewrite <- !app_assoc_s, (app_assoc_s _ crlf rest), Hfirst.
        cbn [fmap option_fmap option_map]. f_equal.
        rewrite !length_app. simpl. lia.
      * by apply header_line_no_crlf.
      * rewrite headers_text_cons, !app_assoc_s.
        apply starts_with_crlf_line; [apply header_line_not_empty|].
        apply header_line_no_crlf. by apply Forall_cons in Hwf as [? _].
Qed.

(** A well-formed part is parsed back from its serialization. *)
Lemma parse_section_rendered (p : part) :
  wf_part p →
  Str.size (dump_item iteration p) < SizeT.modulus →
  parse_section (dump_item iteration p) = Ok p.
Proof.
  intros [Hne Hwf] Hfit. destruct p as [hs b]. cbn [headers body] in *.
  unfold dump_item in *. cbn [headers body] in *.
  destruct (first_blank_line_rendered hs (b +:+ crlf) Hne Hwf)
    as (block & Hblock & Hfirst).
  unfold parse_section, Str.find. rewrite Hfirst.
  fold (Str.size block).
  assert (headers_text iteration hs +:+ crlf +:+ b +:+ crlf
          = (block +:+ crlf) +:+ crlf +:+ b +:+ crlf) as E by (by rewrite Hblock).
  rewrite E in *. clear E.
  pose proof Hfit as Hfit'. rewrite !size_app in Hfit'.
  change (Str.size crlf) with 2 in Hfit'.
  rewrite !add_small by lia.
  replace (Str.size block + 2) with (Str.size (block +:+ crlf))
    by (rewrite size_app; reflexivity).
  rewrite substr_prefix. cbn [bind].
  replace (Str.size block + 4) with (Str.size ((block +:+ crlf) +:+ crlf))
    by (rewrite !size_app; change (Str.size crlf) with 2; lia).
  rewrite <- (app_assoc_s (block +:+ crlf) crlf), erase_prefix. cbn [bind].
  rewrite <- Hblock.
  rewrite parse_section_head_rendered;
    [|done|rewrite Hblock, size_app; change (Str.size crlf) with 2; lia].
  cbn [bind headers]. rewrite size_app. change (Str.size crlf) with 2.
  rewrite sub_small by lia.
  replace (Str.size b + 2 - 2) with (Str.size b) by lia.
  by rewrite substr_prefix.
Qed.

(** ** The text of [dump()] *)

Lemma int_of_unsigned_small (i : nat) :
  N.of_nat i < 2 ^ 31 → SizeT.int_of_unsigned (N.of_nat i) = Z.of_nat i.
Proof.
  intros Hi. unfold SizeT.int_of_unsigned.
  rewrite N.mod_small by (change (2 ^ 32) with 4294967296;
                          change (2 ^ 31) with 2147483648 in Hi; lia).
  cbv zeta. rewrite nat_N_Z.
  destruct (Z.ltb_spec (Z.of_nat i) (2 ^ 31)) as [_|Hge]; [reflexivity|].
  change (2 ^ 31)%Z with 2147483648%Z in Hge.
  change (2 ^ 31) with 2147483648 in Hi. lia.
Qed.

Lemma dump_fold (m : message) (l : list part) :
  ∀ (k : nat) (str : string),
    drop k (parts m) = l →
    N.of_nat (length (parts m)) < 2 ^ 31 →
    foldl (λ acc i,
             str ←! acc;
             d ←! dump_part iteration m (SizeT.int_of_unsigned (N.of_nat i));
             Ok (str +:+ (dd +:+ boundary m) +:+ crlf +:+ d))
      (Ok str) (seq k (length l))
    = Ok (str +:+ parts_text iteration (dd +:+ boundary m) l).
Proof.
  induction l as [|item l IH]; intros k str Hdrop Hfit.
  - simpl. by rewrite app_empty_r.
  - cbn [length seq foldl bind].
    assert (parts m !! k = Some item) as Hk.
    { rewrite <- (Nat.add_0_r k), <- lookup_drop, Hdrop. reflexivity. }
    pose proof (lookup_lt_Some _ _ _ Hk) as Hlt.
    rewrite int_of_unsigned_small by lia.
    rewrite (dump_part_in_range iteration m k item Hk).
    2:{ change (2 ^ 31) with 2147483648 in Hfit. rewrite modulus_value. lia. }
    cbn [bind]. rewrite (IH (S k)); [|  |exact Hfit].
    + cbn [parts_text foldr]. by rewrite !app_assoc_s.
    + replace (S k) with (k + 1)%nat by lia.
      rewrite <- drop_drop, Hdrop. reflexivity.
Qed.

Lemma dump_is_dump_text (m : message) :
  N.of_nat (length (parts m)) < 2 ^ 31 →
  dump iteration m = Ok (dump_text iteration m).
Proof.
  intros Hfit. unfold dump, dump_text.
  rewrite (dump_fold m (parts m) 0 EmptyString); [|reflexivity|exact Hfit].
  cbn [bind]. by rewrite app_Empty, !app_assoc_s.
Qed.

Lemma dump_text_remaining (b : string) (ps : list part) :
  dump_text iteration (Message b ps)
  = (dd +:+ b) +:+ after_delimiter ps
      +:+ remaining_text iteration (dd +:+ b) ps.
Proof.
  unfold dump_text. cbn [boundary parts].
  induction ps as [|item ps IH].
  - cbn [parts_text foldr after_delimiter remaining_text].
    by rewrite app_Empty, !app_assoc_s.
  - cbn [parts_text foldr after_delimiter remaining_text].
    fold (parts_text iteration (dd +:+ b) ps).
    rewrite !app_assoc_s. rewrite !app_assoc_s in IH. by rewrite IH.
Qed.

Lemma size_after_delimiter (ps : list part) : Str.size (after_delimiter ps) = 2.
Proof. by destruct ps. Qed.

(** ** Re-parsing the text of [dump()] *)

Lemma eqb_crlf_long (s : string) :
  (2 < String.length s)%nat → String.eqb s crlf = false.
Proof.
  intros Hlen. apply String.eqb_neq. intros ->. simpl in Hlen. lia.
Qed.

Lemma length_dump_item (item : part) :
  (4 ≤ String.length (dump_item iteration item))%nat.
Proof. unfold dump_item. rewrite !length_app. simpl. lia. Qed.

(** One round on a buffer that starts with a serialized part. *)
Lemma parse_body_body_rendered (delimiter : string) (item : part)
    (sep rest : string) (acc : list part) :
  delimiter_after iteration delimiter item →
  parse_section (dump_item iteration item) = Ok item →
  Str.size sep = 2 →
  Str.size (dump_item iteration item +:+ delimiter +:+ sep +:+ rest)
    < SizeT.modulus →
  parse_body_body delimiter
    (dump_item iteration item +:+ delimiter +:+ sep +:+ rest, acc)
  = Ok (rest, acc ++ [item]).
Proof.
  intros Hdelim Hparse Hsep Hfit. unfold parse_body_body.
  assert (Str.find (dump_item iteration item +:+ delimiter +:+ sep +:+ rest)
            delimiter = Str.size (dump_item iteration item)) as ->.
  { unfold Str.find. rewrite <- app_assoc_s.
    by rewrite (first_occurrence_app_r _ _ _ _ Hdelim). }
  rewrite substr_prefix. cbn [bind].
  rewrite !size_app in Hfit.
  rewrite (add_small _ (Str.size delimiter)) by lia.
  rewrite add_small by lia.
  replace (Str.size (dump_item iteration item) + Str.size delimiter + 2)
    with (Str.size (dump_item iteration item +:+ delimiter +:+ sep))
    by (rewrite !size_app; lia).
  rewrite <- !app_assoc_s, erase_prefix. cbn [bind].
  assert (Str.empty (dump_item iteration item) = false) as ->.
  { pose proof (length_dump_item item).
    destruct (dump_item iteration item); [simpl in *; lia | reflexivity]. }
  cbn [negb]. by rewrite Hparse.
Qed.

Lemma parse_body_loop_rendered (delimiter : string) (ps : list part) :
  ∀ (acc : list part) (fuel : nat),
    Forall (delimiter_after iteration delimiter) ps →
    Forall (λ item, parse_section (dump_item iteration item) = Ok item) ps →
    Str.size (remaining_text iteration delimiter ps) < SizeT.modulus →
    (length ps ≤ fuel)%nat →
    while fuel (λ st, negb (String.eqb st.1 crlf)) (parse_body_body delimiter)
      (remaining_text iteration delimiter ps, acc)
    = Some (Ok (crlf, acc ++ ps)).
Proof.
  induction ps as [|item ps IH]; intros acc fuel Hdelim Hparse Hfit Hfuel.
  - rewrite while_exit by reflexivity. by rewrite app_nil_r.
  - destruct fuel as [|fuel]; [simpl in Hfuel; lia|].
    apply Forall_cons in Hdelim as [Hd Hdelim].
    apply Forall_cons in Hparse as [Hp Hparse].
    rewrite while_unfold. cbn [fst remaining_text] in *.
    rewrite eqb_crlf_long.
    2:{ pose proof (length_dump_item item). rewrite !length_app. lia. }
    cbn [negb].
    rewrite parse_body_body_rendered;
      [|done|done|apply size_after_delimiter|done].
    rewrite IH; [by rewrite <- app_assoc|done|done| |simpl in Hfuel; lia].
    rewrite !size_app in Hfit. lia.
Qed.

(** The first round on the text of [dump()]: the delimiter is found at
    offset 0, the section before it is empty, and the delimiter and the two
    characters after it are erased. *)
Lemma parse_body_body_first (b sep rest : string) :
  Str.size sep = 2 →
  Str.size ((dd +:+ b) +:+ sep +:+ rest) < SizeT.modulus →
  parse_body_body (dd +:+ b) ((dd +:+ b) +:+ sep +:+ rest, [])
  = Ok (rest, []).
Proof.
  intros Hsep Hfit. unfold parse_body_body.
  assert (Str.find ((dd +:+ b) +:+ sep +:+ rest) (dd +:+ b) = 0) as ->.
  { unfold Str.find. change ((dd +:+ b) +:+ sep +:+ rest)
      with (String "-" (String "-" (b +:+ sep +:+ rest))).
    rewrite first_occurrence_String.
    change (String "-" (String "-" (b +:+ sep +:+ rest)))
      with ((dd +:+ b) +:+ sep +:+ rest).
    by rewrite starts_with_app. }
  change (Str.substr ((dd +:+ b) +:+ sep +:+ rest) 0 0)
    with (Ok EmptyString : outcome string).
  cbn [bind]. set (delimiter := dd +:+ b) in *. rewrite !size_app in Hfit.
  change (0 +ₛ Str.size delimiter) with (SizeT.wrap (Str.size delimiter)).
  unfold SizeT.wrap. rewrite N.mod_small by lia.
  rewrite add_small by lia.
  replace (Str.size delimiter + 2) with (Str.size (delimiter +:+ sep))
    by (rewrite !size_app; lia).
  rewrite <- app_assoc_s, erase_prefix. reflexivity.
Qed.

(** ** What parsing builds: parts *)

Lemma parse_body_loop_wf (fuel : nat) (delimiter : string) :
  ∀ (body body' : string) (acc out : list part),
    Str.size body < SizeT.modulus →
    Forall wf_part acc →
    while fuel (λ st, negb (String.eqb st.1 crlf)) (parse_body_body delimiter)
      (body, acc) = Some (Ok (body', out)) →
    Forall wf_part out.
Proof.
  induction fuel as [|fuel IH]; intros body body' acc out Hfit Hacc Hw.
  - simpl in Hw. destruct (negb _); [discriminate|]. by injection Hw as <- <-.
  - rewrite while_unfold in Hw. cbn [fst] in Hw.
    destruct (negb _); [|by injection Hw as <- <-].
    destruct (parse_body_body delimiter (body, acc)) as [[b1 s1]| |] eqn:Hb;
      try discriminate.
    apply parse_body_body_cases in Hb as (section & Hsub & Her & Hcase).
    rewrite substr_0 in Hsub. rewrite erase_0 in Her.
    injection Hsub as <-. injection Her as <-.
    eapply IH; [| |exact Hw].
    + pose proof (size_substring _ _ (substring_of_drop
        (N.to_nat (N.min (Str.find body delimiter +ₛ Str.size delimiter +ₛ 2)
                         (Str.size body))) body)). lia.
    + destruct Hcase as [[_ ->] | (Hne & p & Hp & ->)]; [exact Hacc|].
      apply Forall_app. split; [exact Hacc|]. constructor; [|constructor].
      apply (parse_section_wf _ p Hne); [|exact Hp].
      pose proof (size_substring _ _ (substring_of_take
        (N.to_nat (N.min (Str.find body delimiter) (Str.size body))) body)).
      lia.
Qed.

(** Every part of a parsed message has at least one header, and its
    headers are well formed. *)
Lemma parse_body_wf (fuel : nat) (b body : string) (ps : list part) :
  Str.size body < SizeT.modulus →
  parse_body fuel b body = Some (Ok ps) →
  Forall wf_part ps.
Proof.
  intros Hfit Hp. unfold parse_body in Hp.
  destruct (while fuel _ _ _) as [[[b' ss]| |]|] eqn:Hw; simpl in Hp;
    try discriminate.
  injection Hp as ->.
  by apply (parse_body_loop_wf fuel (dd +:+ b) body b' [] ps).
Qed.

Lemma parse_body_fuel_mono (fuel fuel' : nat) (b body : string)
    (r : outcome (list part)) :
  parse_body fuel b body = Some r → (fuel ≤ fuel')%nat →
  parse_body fuel' b body = Some r.
Proof.
  unfold parse_body. intros Hp Hle.
  destruct (while fuel _ _ _) as [o|] eqn:Hw; [|discriminate].
  by rewrite (while_fuel_mono _ _ _ _ _ _ Hw Hle).
Qed.

(** ** Round trip *)

(** One part: whatever non-empty section it was parsed from, a part is
    parsed back from its own serialization. *)
Lemma parse_section_round_trip (section : string) (p : part) :
  section ≠ EmptyString →
  Str.size section < SizeT.modulus →
  parse_section section = Ok p →
  Str.size (dump_item iteration p) < SizeT.modulus →
  parse_section (dump_item iteration p) = Ok p.
Proof.
  intros Hne Hfit Hp Hfit'. apply parse_section_rendered; [|exact Hfit'].
  by apply (parse_section_wf section).
Qed.

Lemma size_dump_item_remaining (delimiter : string) (ps : list part) :
  Forall (λ item, Str.size (dump_item iteration item)
                  ≤ Str.size (remaining_text iteration delimiter ps)) ps.
Proof.
  induction ps as [|item ps IH]; constructor.
  - cbn [remaining_text]. rewrite !size_app. lia.
  - eapply Forall_impl; [exact IH|]. intros p Hp. cbn beta in *.
    cbn [remaining_text]. rewrite !size_app. lia.
Qed.

(** The message-level round trip, under the condition that no serialized
    part runs into the delimiter. *)
Lemma round_trip_delimiter_after (fuel : nat) (b body : string) (ps : list part) :
  Str.size body < SizeT.modulus →
  parse_body fuel b body = Some (Ok ps) →
  Forall (delimiter_after iteration (dd +:+ b)) ps →
  N.of_nat (length ps) < 2 ^ 31 →
  Str.size (dump_text iteration (Message b ps)) < SizeT.modulus →
  ∃ text,
    dump iteration (Message b ps) = Ok text
    ∧ parse_body (S (length ps)) b text = Some (Ok ps).
Proof.
  intros Hfit Hparse Hdelim Hcount Hfit'.
  exists (dump_text iteration (Message b ps)). split.
  - by apply dump_is_dump_text.
  - rewrite dump_text_remaining in *. unfold parse_body.
    rewrite while_unfold. cbn [fst].
    assert (String.eqb ((dd +:+ b) +:+ after_delimiter ps
                        +:+ remaining_text iteration (dd +:+ b) ps) crlf
            = false) as -> by reflexivity.
    cbn [negb].
    rewrite parse_body_body_first by (apply size_after_delimiter || done).
    rewrite !size_app in Hfit'.
    rewrite (parse_body_loop_rendered (dd +:+ b) ps []); [reflexivity| | | |].
    + exact Hdelim.
    + pose proof (parse_body_wf _ _ _ _ Hfit Hparse) as Hwf.
      pose proof (size_dump_item_remaining (dd +:+ b) ps) as Hsz.
      rewrite Forall_forall in Hwf. rewrite Forall_forall in Hsz.
      apply Forall_forall. intros p Hin.
      apply parse_section_rendered; [by apply Hwf|].
      specialize (Hsz p Hin). cbn beta in Hsz. lia.
    + lia.
    + lia.
Qed.

(** C4, as the code has it. A message that was parsed from a body is
    parsed back from its serialization, provided the serialized parts do not
    run into the delimiter: in the text of every part followed by
    [--boundary], that delimiter is the first one.  (All strings fit
    [size_t], and there are fewer than 2^31 parts, so that the [unsigned]
    loop counter of [dump()] is a valid [int].)  The order in which the
    serializer visits the parameters of a header does not matter. *)
Theorem parse_dump_round_trip (fuel : nat) (b body : string) (ps : list part) :
  Str.size body < SizeT.modulus →
  parse_body fuel b body = Some (Ok ps) →
  Forall (delimiter_after iteration (dd +:+ b)) ps →
  N.of_nat (length ps) < 2 ^ 31 →
  Str.size (dump_text iteration (Message b ps)) < SizeT.modulus →
  ∃ text,
    dump iteration (Message b ps) = Ok text
    ∧ parse_body (S (length ps)) b text = Some (Ok ps).
Proof. apply round_trip_delimiter_after. Qed.

End Reparse.

Lemma parse_dump_round_trip_witness :
  ∃ text,
    dump map_to_list
      (Message "X" [Part [Header ("Content-Disposition", "form-data")
                            {[ "name" := "f" ]}] "hello"]) = Ok text
    ∧ parse_body 2 "X" text
      = Some (Ok [Part [Header ("Content-Disposition", "form-data")
                          {[ "name" := "f" ]}] "hello"]).
Proof.
  apply (parse_dump_round_trip map_to_list (λ m, reflexivity _)
           2 "X" scenario_A).
  - vm_compute. reflexivity.
  - vm_compute. reflexivity.
  - apply Forall_cons. split; [vm_compute; reflexivity | constructor].
  - vm_compute. reflexivity.
  - vm_compute. reflexivity.
Defined.

(** For scenario A the serialization is the body itself. *)
Example dump_scenario_A :
  dump map_to_list
    (Message "X" [Part [Header ("Content-Disposition", "form-data")
                          {[ "name" := "f" ]}] "hello"])
  = Ok scenario_A.
Proof. vm_compute. reflexivity. Qed.

(** Two parts, the first with unquoted parameters: the serialization
    differs from the body (the values are written between quotes, in the
    order of the map), and it is parsed back to the same parts. *)
Example round_trip_two_parts :
  let body :=
    "--X" +:+ crlf +:+ "Content-Disposition: form-data; name=a; filename=b.txt"
    +:+ crlf +:+ "Content-Type: text/plain" +:+ crlf +:+ crlf
    +:+ "one" +:+ crlf
    +:+ "--X" +:+ crlf +:+ "Content-Disposition: form-data; name="
    +:+ quoted "c" +:+ crlf +:+ crlf
    +:+ "two" +:+ crlf
    +:+ "--X--" +:+ crlf in
  let ps :=
    [Part [Header ("Content-Disposition", "form-data")
             {[ "name" := "a"; "filename" := "b.txt" ]};
           Header ("Content-Type", "text/plain") ∅] "one";
     Part [Header ("Content-Disposition", "form-data") {[ "name" := "c" ]}]
       "two"] in
  parse_body 3 "X" body = Some (Ok ps)
  ∧ dump map_to_list (Message "X" ps) ≠ Ok body
  ∧ ∃ text, dump map_to_list (Message "X" ps) = Ok text
            ∧ parse_body 3 "X" text = Some (Ok ps).
Proof.
  cbv zeta. split; [vm_compute; reflexivity|].
  split; [vm_compute; discriminate|].
  eexists. split; vm_compute; reflexivity.
Qed.

(** C4, as the claim states it, fails. With the boundary a lone double
    quote, the part parsed from [quote_boundary_body] has the parameter
    value [y--]; [dump] writes it between quotes, the text [--] followed by
    a quote is the delimiter, and parsing the serialization again splits
    the part in two. *)
Lemma round_trip_fails_on_quote_boundary :
  get_boundary ("multipart/form-data; boundary="
                +:+ quoted quote_boundary) = Ok quote_boundary
  ∧ parse_body 2 quote_boundary quote_boundary_body
    = Some (Ok [Part [Header ("A", "b") {[ "x" := "y--" ]}] "hello"])
  ∧ ∃ text,
      dump map_to_list
        (Message quote_boundary
           [Part [Header ("A", "b") {[ "x" := "y--" ]}] "hello"]) = Ok text
      ∧ ∀ fuel,
          parse_body fuel quote_boundary text
          ≠ Some (Ok [Part [Header ("A", "b") {[ "x" := "y--" ]}] "hello"]).
Proof.
  split; [vm_compute; reflexivity|]. split; [vm_compute; reflexivity|].
  eexists. split; [vm_compute; reflexivity|].
  intros fuel Hfuel.
  assert (∃ r, parse_body 3 quote_boundary
                 ("--" +:+ quote_boundary +:+ crlf
                  +:+ "A: b; x=" +:+ quoted "y--" +:+ crlf +:+ crlf
                  +:+ "hello" +:+ crlf
                  +:+ "--" +:+ quote_boundary +:+ "--" +:+ crlf) = Some (Ok r)
               ∧ length r = 2%nat) as (r & Hr & Hlen)
    by (eexists; split; vm_compute; reflexivity).
  destruct (Nat.le_gt_cases fuel 3) as [Hle | Hgt].
  - apply (parse_body_fuel_mono _ 3) in Hfuel; [|exact Hle].
    change (parse_body 3 quote_boundary
              ("--" +:+ quote_boundary +:+ crlf
               +:+ "A: b; x=" +:+ quoted "y--" +:+ crlf +:+ crlf
               +:+ "hello" +:+ crlf
               +:+ "--" +:+ quote_boundary +:+ "--" +:+ crlf)
            = Some (Ok [Part [Header ("A", "b") {[ "x" := "y--" ]}] "hello"]))
      in Hfuel.
    rewrite Hr in Hfuel. injection Hfuel as ->. discriminate Hlen.
  - apply (parse_body_fuel_mono _ fuel) in Hr; [|lia].
    change (parse_body fuel quote_boundary
              ("--" +:+ quote_boundary +:+ crlf
               +:+ "A: b; x=" +:+ quoted "y--" +:+ crlf +:+ crlf
               +:+ "hello" +:+ crlf
               +:+ "--" +:+ quote_boundary +:+ "--" +:+ crlf)
            = Some (Ok [Part [Header ("A", "b") {[ "x" := "y--" ]}] "hello"]))
      in Hfuel.
    rewrite Hr in Hfuel. injection Hfuel as ->. discriminate Hlen.
Qed.

(** There the condition of the round trip fails: in the serialized part
    followed by the delimiter, the delimiter is met inside the part. *)
Example quote_boundary_delimiter_inside_part :
  Str.first_occurrence (dd +:+ quote_boundary)
    (dump_item map_to_list
       (Part [Header ("A", "b") {[ "x" := "y--" ]}] "hello")
     +:+ dd +:+ quote_boundary) = Some 10%nat
  ∧ String.length
      (dump_item map_to_list
         (Part [Header ("A", "b") {[ "x" := "y--" ]}] "hello")) = 24%nat.
Proof. split; vm_compute; reflexivity. Qed.

(** ** Texts free of a needle *)

Lemma starts_with_prefix_app (needle a b : string) :
  Str.starts_with needle a = true → Str.starts_with needle (a +:+ b) = true.
Proof.
  intros H. apply starts_with_true in H. rewrite H, app_assoc_s.
  apply starts_with_app.
Qed.

(** A needle without the character [c] does not match across [c]. *)
Lemma starts_with_app_sep (needle a : string) (c : ascii) (b : string) :
  has1 c needle = false →
  Str.starts_with needle (a +:+ String c b) = Str.starts_with needle a.
Proof.
  revert a. induction needle as [|x needle IH]; intros a Hc; [by destruct a|].
  cbn [has1] in Hc. apply orb_false_elim in Hc as [Hx Hc].
  destruct a as [|y a].
  - rewrite app_Empty. cbn [Str.starts_with]. by rewrite Hx.
  - rewrite app_String. cbn [Str.starts_with].
    destruct (Ascii.eqb x y); [by apply IH | reflexivity].
Qed.

Lemma first_occurrence_is_Some (needle a b : string) :
  is_Some (Str.first_occurrence needle (a +:+ needle +:+ b)).
Proof.
  induction a as [|c a IH].
  - rewrite app_Empty. destruct (needle +:+ b) as [|x s] eqn:E.
    + destruct needle; [by eexists | discriminate].
    + rewrite first_occurrence_String, <- E, starts_with_app. by eexists.
  - rewrite app_String, first_occurrence_String.
    destruct (Str.starts_with _ _); [by eexists|].
    destruct IH as [i ->]. by eexists.
Qed.

Lemma free_of_substring (needle m s : string) :
  substring_of m s → free_of needle s → free_of needle m.
Proof.
  intros (a & b & ->) Hfree. unfold free_of in *.
  destruct (Str.first_occurrence needle m) as [i|] eqn:Hm; [|reflexivity].
  apply first_occurrence_Some in Hm as (a' & b' & -> & _).
  destruct (first_occurrence_is_Some needle (a +:+ a') (b' +:+ b)) as [j Hj].
  rewrite !app_assoc_s in Hj. rewrite !app_assoc_s in Hfree. congruence.
Qed.

Lemma free_of_not_empty (needle s : string) :
  free_of needle s → needle ≠ EmptyString.
Proof. intros Hfree ->. unfold free_of in Hfree. by destruct s. Qed.

(** Two texts free of the needle, joined by a character that the needle
    does not have. *)
Lemma free_of_join (needle a : string) (c : ascii) (b : string) :
  has1 c needle = false →
  free_of needle a → free_of needle (String c b) →
  free_of needle (a +:+ String c b).
Proof.
  intros Hc Ha Hb. unfold free_of in *. induction a as [|x a IH].
  - by rewrite app_Empty.
  - rewrite first_occurrence_String in Ha.
    destruct (Str.starts_with needle (String x a)) eqn:Hs; [discriminate|].
    destruct (Str.first_occurrence needle a) eqn:Hf; [discriminate|].
    rewrite app_String, first_occurrence_String.
    rewrite <- app_String, starts_with_app_sep, Hs by exact Hc.
    by rewrite IH.
Qed.

Lemma free_of_skip (needle : string) (c : ascii) (b : string) :
  has1 c needle = false → needle ≠ EmptyString →
  free_of needle b → free_of needle (String c b).
Proof.
  intros Hc Hne Hb. unfold free_of in *.
  rewrite first_occurrence_String, Hb.
  change (String c b) with (EmptyString +:+ String c b).
  rewrite starts_with_app_sep by exact Hc. by destruct needle.
Qed.

Lemma free_of_empty (needle : string) :
  needle ≠ EmptyString → free_of needle EmptyString.
Proof. intros Hne. by apply first_occurrence_in_empty. Qed.

(** After a text free of the needle and a character that the needle does
    not have, the needle is found at once. *)
Lemma first_occurrence_after_free (needle a : string) (c : ascii)
    (rest : string) :
  has1 c needle = false → free_of needle a →
  Str.first_occurrence needle (a +:+ String c (needle +:+ rest))
  = Some (S (String.length a)).
Proof.
  intros Hc Ha. pose proof (free_of_not_empty _ _ Ha) as Hne.
  unfold free_of in *. induction a as [|x a IH].
  - rewrite app_Empty, first_occurrence_String.
    change (String c (needle +:+ rest))
      with (EmptyString +:+ String c (needle +:+ rest)).
    rewrite starts_with_app_sep by exact Hc.
    assert (Str.starts_with needle EmptyString = false) as ->
      by (by destruct needle).
    destruct (needle +:+ rest) as [|y s] eqn:E.
    + destruct needle; [done | discriminate].
    + by rewrite first_occurrence_String, <- E, starts_with_app.
  - rewrite first_occurrence_String in Ha.
    destruct (Str.starts_with needle (String x a)) eqn:Hs; [discriminate|].
    destruct (Str.first_occurrence needle a) eqn:Hf; [discriminate|].
    rewrite app_String, first_occurrence_String.
    rewrite <- app_String, starts_with_app_sep, Hs by exact Hc.
    by rewrite IH.
Qed.

(** The text before the first match is free of the needle. *)
Lemma free_of_before_first (needle a rest : string) :
  needle ≠ EmptyString →
  Str.first_occurrence needle (a +:+ rest) = Some (String.length a) →
  free_of needle a.
Proof.
  intros Hne. unfold free_of. induction a as [|x a IH]; intros Hf.
  - by apply first_occurrence_in_empty.
  - rewrite app_String, first_occurrence_String in Hf.
    destruct (Str.starts_with needle (String x (a +:+ rest))) eqn:Hs;
      [discriminate|].
    destruct (Str.first_occurrence needle (a +:+ rest)) as [j|] eqn:Hj;
      [|discriminate].
    injection Hf as ->. rewrite first_occurrence_String, (IH eq_refl).
    destruct (Str.starts_with needle (String x a)) eqn:Hs'; [|reflexivity].
    apply (starts_with_prefix_app _ _ rest) in Hs'.
    rewrite app_String in Hs'. congruence.
Qed.

(** ** What parsing builds: every field comes from the text *)

Lemma param_of_token_within (param name trimmed : string) :
  Str.size param < SizeT.modulus →
  param_of_token param = Ok (name, trimmed) →
  substring_of name param ∧ substring_of trimmed param.
Proof.
  intros Hfit Hp.
  destruct (find_char_cases "=" param) as [k raw Hs Hk | Hk].
  - subst param. change (k +:+ String "=" raw) with (k +:+ "=" +:+ raw) in *.
    rewrite param_of_token_with_eq in Hp by assumption.
    rewrite !size_app in Hfit.
    destruct (trim raw dquote) as [t| |] eqn:Ht; try discriminate.
    injection Hp as <- <-. split; [apply substring_of_prefix|].
    eapply substring_of_trans; [eapply trim_substring; [|exact Ht]; lia|].
    rewrite <- app_assoc_s. apply substring_of_suffix.
  - rewrite param_of_token_without_eq in Hp by assumption.
    destruct (trim param dquote) as [t| |] eqn:Ht; try discriminate.
    injection Hp as <- <-. split; [apply substring_of_refl|].
    by eapply trim_substring.
Qed.

Lemma parse_params_body_inv (line line' : string)
    (params ps : gmap string string) :
  line ≠ EmptyString →
  Str.size line < SizeT.modulus →
  parse_params_body (line, params) = Ok (line', ps) →
  ∃ token name trimmed,
    substring_of token line ∧ substring_of line' line
    ∧ param_of_token token = Ok (name, trimmed)
    ∧ ps = emplace name trimmed params.
Proof.
  intros Hne Hfit Hb.
  destruct (find_pair_cases ";" " " line) as [a b Hs Ha | Ha].
  - subst line. rewrite parse_params_body_found in Hb by assumption.
    destruct (param_of_token a) as [[name t]| |] eqn:Ht; try discriminate.
    injection Hb as <- <-. exists a, name, t.
    split; [apply substring_of_prefix|].
    split; [rewrite <- app_assoc_s; apply substring_of_suffix|]. done.
  - rewrite parse_params_body_last in Hb by assumption.
    destruct (param_of_token line) as [[name t]| |] eqn:Ht; try discriminate.
    injection Hb as <- <-. exists line, name, t.
    split; [apply substring_of_refl|].
    split; [exists line, EmptyString; by rewrite app_Empty, app_empty_r|]. done.
Qed.

Lemma parse_params_loop_within (whole : string) (fuel : nat) :
  ∀ (line line' : string) (params ps : gmap string string),
    Str.size line < SizeT.modulus →
    substring_of line whole →
    map_Forall (λ k v, substring_of k whole ∧ substring_of v whole) params →
    while fuel (λ st, negb (Str.empty st.1)) parse_params_body (line, params)
      = Some (Ok (line', ps)) →
    map_Forall (λ k v, substring_of k whole ∧ substring_of v whole) ps.
Proof.
  induction fuel as [|fuel IH]; intros line line' params ps Hfit Hsub Hm Hw.
  - simpl in Hw. destruct line; [|discriminate]. by injection Hw as <- <-.
  - rewrite while_unfold in Hw. cbn [fst] in Hw.
    destruct line as [|c line]; [by injection Hw as <- <-|].
    cbn [Str.empty negb] in Hw.
    destruct (parse_params_body (String c line, params)) as [[l1 p1]| |] eqn:Hb;
      try discriminate.
    apply parse_params_body_inv in Hb
      as (token & name & t & Htok & Hl1 & Hp & ->); try done.
    pose proof (size_substring _ _ Htok). pose proof (size_substring _ _ Hl1).
    apply param_of_token_within in Hp as [Hn Ht]; [|lia].
    eapply IH; [| | |exact Hw]; [lia| |].
    + by eapply substring_of_trans.
    + unfold emplace. destruct (params !! name); [exact Hm|].
      apply map_Forall_insert_2; [|exact Hm].
      split; eapply substring_of_trans; try eassumption;
        by eapply substring_of_trans.
Qed.

Lemma header_of_line_within (line : string) (h : header) :
  Str.size line < SizeT.modulus →
  header_of_line line = Ok h → header_within line h.
Proof.
  intros Hfit Hh. unfold header_of_line in Hh.
  destruct line as [|c line]; cbn [Str.empty negb bind] in Hh.
  - change (parse_params EmptyString ∅) with (Ok (∅ : gmap string string)) in Hh.
    injection Hh as <-. unfold header_within. cbn [value params fst snd].
    split_and!; try apply substring_of_refl. apply map_Forall_empty.
  - set (l := String c line) in *.
    assert (∃ header rest,
              substring_of header l ∧ substring_of rest l
              ∧ parse_primary l = (value ←! split_header header; Ok (value, rest)))
      as (header & rest & Hsubh & Hsubr & Hpp).
    { destruct (find_pair_cases ";" " " l) as [a b Hl Ha | Ha].
      - exists a, b. rewrite Hl in *.
        split; [apply substring_of_prefix|].
        split; [rewrite <- app_assoc_s; apply substring_of_suffix|].
        by apply parse_primary_found.
      - exists l, EmptyString. split; [apply substring_of_refl|].
        split; [exists l, EmptyString; by rewrite app_Empty, app_empty_r|].
        by apply parse_primary_last. }
    rewrite Hpp in Hh. clear Hpp.
    destruct (split_header header) as [[n v]| |] eqn:Hsplit; try discriminate.
    cbn [bind] in Hh. unfold parse_params in Hh.
    destruct (while _ _ _ _) as [[[l' ps]| |]|] eqn:Hw; try discriminate.
    injection Hh as <-.
    pose proof (size_substring _ _ Hsubh). pose proof (size_substring _ _ Hsubr).
    apply split_header_wf in Hsplit as (_ & Hn & Hv); [|lia].
    unfold header_within. cbn [value params fst snd].
    split_and!; try (by eapply substring_of_trans).
    eapply (parse_params_loop_within l); [| | |exact Hw];
      [lia | exact Hsubr | apply map_Forall_empty].
Qed.

Lemma header_within_mono (s s' : string) (h : header) :
  substring_of s s' → header_within s h → header_within s' h.
Proof.
  intros Hs (Hn & Hv & Hps). unfold header_within.
  split_and!; try (by eapply substring_of_trans).
  eapply map_Forall_impl; [exact Hps|]. intros k v [Hk Hv'].
  split; by eapply substring_of_trans.
Qed.

Lemma parse_section_head_body_inv (lines lines' : string)
    (hs hs' : list header) :
  Str.size lines < SizeT.modulus →
  parse_section_head_body (lines, hs) = Ok (lines', hs') →
  ∃ line to_add,
    substring_of line lines ∧ substring_of lines' lines
    ∧ header_of_line line = Ok to_add ∧ hs' = hs ++ [to_add].
Proof.
  intros Hfit Hb.
  destruct (find_pair_cases "013" "010" lines) as [a b Hl Ha | Ha].
  - subst lines. change (pair_of "013" "010") with crlf in *.
    rewrite parse_section_head_body_found in Hb by assumption.
    destruct (header_of_line a) as [h| |] eqn:Hh; try discriminate.
    injection Hb as <- <-. exists a, h.
    split; [apply substring_of_prefix|].
    split; [rewrite <- app_assoc_s; apply substring_of_suffix|]. done.
  - rewrite parse_section_head_body_not_found in Hb by assumption.
    destruct (header_of_line lines) as [h| |] eqn:Hh; try discriminate.
    injection Hb as <- <-. exists lines, h.
    split; [apply substring_of_refl|].
    split; [exact (substring_of_drop 1 lines)|]. done.
Qed.

Lemma parse_section_head_loop_within (whole : string) (fuel : nat) :
  ∀ (lines lines' : string) (hs hs' : list header),
    Str.size lines < SizeT.modulus →
    substring_of lines whole →
    Forall (header_within whole) hs →
    while fuel (λ st, negb (Str.empty st.1)) parse_section_head_body
      (lines, hs) = Some (Ok (lines', hs')) →
    Forall (header_within whole) hs'.
Proof.
  induction fuel as [|fuel IH]; intros lines lines' hs hs' Hfit Hsub Hhs Hw.
  - simpl in Hw. destruct lines; [|discriminate]. by injection Hw as <- <-.
  - rewrite while_unfold in Hw. cbn [fst] in Hw.
    destruct lines as [|c lines]; [by injection Hw as <- <-|].
    cbn [Str.empty negb] in Hw.
    destruct (parse_section_head_body (String c lines, hs)) as [[l1 h1]| |] eqn:Hb;
      try discriminate.
    apply parse_section_head_body_inv in Hb
      as (line & h & Hline & Hl1 & Hh & ->); [|exact Hfit].
    pose proof (size_substring _ _ Hline). pose proof (size_substring _ _ Hl1).
    apply header_of_line_within in Hh; [|lia].
    eapply IH; [| | |exact Hw]; [lia| |].
    + by eapply substring_of_trans.
    + apply Forall_app. split; [exact Hhs|]. constructor; [|constructor].
      eapply header_within_mono; [|exact Hh]. by eapply substring_of_trans.
Qed.

(** Every name, value and body of a parsed part is a piece of the section
    it was parsed from. *)
Lemma parse_section_within (section : string) (p : part) :
  Str.size section < SizeT.modulus →
  parse_section section = Ok p →
  part_within section p.
Proof.
  intros Hfit Hp. unfold parse_section in Hp.
  rewrite substr_0, erase_0 in Hp. cbn [bind] in Hp.
  set (head_line := Str.take _ section) in *.
  set (rest := Str.drop _ section) in *.
  assert (substring_of head_line section) as Hhead by apply substring_of_take.
  assert (substring_of rest section) as Hrest by apply substring_of_drop.
  pose proof (size_substring _ _ Hhead).
  unfold parse_section_head in Hp. cbn [headers body] in Hp.
  destruct (while _ _ _ _) as [[[l' hs]| |]|] eqn:Hw; try discriminate.
  cbn [run bind] in Hp. rewrite substr_0 in Hp. cbn [bind headers] in Hp.
  injection Hp as <-. split; cbn [headers body].
  - eapply (parse_section_head_loop_within section); [| | |exact Hw];
      [lia | exact Hhead | constructor].
  - eapply substring_of_trans; [apply substring_of_take | exact Hrest].
Qed.

(** ** Serialized parts and a plain delimiter *)

Lemma plain_chars (needle : string) :
  plain needle →
  has1 "013" needle = false ∧ has1 "010" needle = false
  ∧ has1 ":" needle = false ∧ has1 " " needle = false
  ∧ has1 ";" needle = false ∧ has1 "=" needle = false
  ∧ has1 dquote needle = false.
Proof.
  unfold plain, separator_chars. rewrite !Forall_cons. tauto.
Qed.

Lemma plain_delimiter (b : string) : plain b → plain (dd +:+ b).
Proof.
  unfold plain, separator_chars. rewrite !Forall_cons.
  change (dd +:+ b) with (String "-" (String "-" b)). cbn [has1].
  intros (?&?&?&?&?&?&?&_). by split_and!.
Qed.

Lemma params_text_flat (it : string * string) (l : list (string * string)) :
  params_text (it :: l)
  = String ";" (String " " (it.1 +:+ String "=" (String dquote
      (it.2 +:+ String dquote (params_text l))))).
Proof.
  unfold params_text. cbn [fmap list_fmap foldr].
  unfold dump_param, pad, Str.of_char.
  rewrite !app_assoc_s, (app_String dquote), app_assoc_s. reflexivity.
Qed.

Lemma free_of_params_text (needle : string) (l : list (string * string)) :
  plain needle → needle ≠ EmptyString →
  Forall (λ kv, free_of needle kv.1 ∧ free_of needle kv.2) l →
  free_of needle (params_text l).
Proof.
  intros (_&_&_&Hsp&Hsemi&Heq&Hq)%plain_chars Hne Hl.
  induction Hl as [|[k v] l [Hk Hv] Hl IH]; [by apply free_of_empty|].
  rewrite params_text_flat. cbn [fst snd] in *.
  do 2 (apply free_of_skip; [done|done|]).
  apply free_of_join; [done|done|]. apply free_of_skip; [done|done|].
  apply free_of_skip; [done|done|].
  apply free_of_join; [done|done|]. by apply free_of_skip.
Qed.

Lemma free_of_app_params_text (needle a : string)
    (l : list (string * string)) :
  plain needle →
  free_of needle a → free_of needle (params_text l) →
  free_of needle (a +:+ params_text l).
Proof.
  intros (_&_&_&_&Hsemi&_)%plain_chars Ha Hl. destruct l as [|it l].
  - change (params_text []) with EmptyString. by rewrite app_empty_r.
  - rewrite params_text_flat in *. by apply free_of_join.
Qed.

Section PlainBoundary.
Variable iteration : gmap string string → list (string * string).
Hypothesis iteration_perm : ∀ m, iteration m ≡ₚ map_to_list m.

Lemma iteration_Forall (P : string → string → Prop) (m : gmap string string) :
  map_Forall P m → Forall (uncurry P) (iteration m).
Proof. rewrite iteration_perm. by rewrite map_Forall_to_list. Qed.

Lemma free_of_header_line (needle whole : string) (h : header) :
  plain needle → free_of needle whole →
  header_within whole h →
  free_of needle (header_line iteration h).
Proof.
  intros Hplain Hfree (Hn & Hv & Hps).
  pose proof (free_of_not_empty _ _ Hfree) as Hne.
  pose proof (plain_chars _ Hplain) as (_&_&Hcolon&Hsp&_).
  unfold header_line.
  change ((value h).1 +:+ ": " +:+ (value h).2
          +:+ params_text (iteration (params h)))
    with ((value h).1 +:+ String ":" (String " "
            ((value h).2 +:+ params_text (iteration (params h))))).
  apply free_of_join; [done | by eapply free_of_substring |].
  do 2 (apply free_of_skip; [done|done|]).
  assert (free_of needle (params_text (iteration (params h)))) as Hpt.
  { apply free_of_params_text; [done|done|].
    eapply Forall_impl; [apply iteration_Forall, Hps|].
    intros [k v] [Hk Hv']. cbn [uncurry fst snd] in *.
    split; by eapply free_of_substring. }
  apply free_of_app_params_text; [done | by eapply free_of_substring | done].
Qed.

Lemma free_of_headers_text (needle whole : string) (hs : list header) :
  plain needle → free_of needle whole →
  Forall (header_within whole) hs →
  free_of needle (headers_text iteration hs).
Proof.
  intros Hplain Hfree Hhs.
  pose proof (free_of_not_empty _ _ Hfree) as Hne.
  pose proof (plain_chars _ Hplain) as (Hcr&Hlf&_).
  induction Hhs as [|h hs Hh Hhs IH]; [by apply free_of_empty|].
  rewrite (headers_text_cons iteration).
  change (header_line iteration h +:+ crlf +:+ headers_text iteration hs)
    with (header_line iteration h
          +:+ String "013" (String "010" (headers_text iteration hs))).
  apply free_of_join; [done | by apply (free_of_header_line needle whole) |].
  do 2 (apply free_of_skip; [done|done|]). exact IH.
Qed.

(** A part whose fields come from a text free of a plain delimiter does not
    run into the delimiter when it is serialized. *)
Lemma delimiter_after_part_within (delimiter whole : string) (p : part) :
  plain delimiter → free_of delimiter whole →
  part_within whole p →
  delimiter_after iteration delimiter p.
Proof.
  intros Hplain Hfree [Hhs Hbody].
  pose proof (free_of_not_empty _ _ Hfree) as Hne.
  pose proof (plain_chars _ Hplain) as (Hcr&Hlf&_).
  unfold delimiter_after, dump_item.
  set (a := headers_text iteration (headers p)
            +:+ String "013" (String "010" (body p +:+ String "013" EmptyString))).
  assert ((headers_text iteration (headers p) +:+ crlf +:+ body p +:+ crlf)
          +:+ delimiter
          = a +:+ String "010" (delimiter +:+ EmptyString)) as ->.
  { unfold a. rewrite !app_assoc_s, app_empty_r.
    change (crlf +:+ body p +:+ crlf +:+ delimiter)
      with (String "013" (String "010" (body p +:+ crlf +:+ delimiter))).
    rewrite !app_String. do 3 f_equal. by rewrite app_assoc_s. }
  assert (String.length (headers_text iteration (headers p) +:+ crlf
                         +:+ body p +:+ crlf) = S (String.length a)) as ->.
  { unfold a. rewrite !length_app. cbn [String.length].
    rewrite !length_app. simpl. lia. }
  apply first_occurrence_after_free; [done|].
  unfold a. apply free_of_join; [done | by apply (free_of_headers_text delimiter whole) |].
  do 2 (apply free_of_skip; [done|done|]).
  apply free_of_join; [done | by eapply free_of_substring |].
  apply free_of_skip; [done|done|]. by apply free_of_empty.
Qed.


(** The sections that [parse_body] parses are free of the delimiter, and
    so is every field of the parts it returns. *)
Lemma parse_body_loop_free (fuel : nat) (delimiter : string) :
  delimiter ≠ EmptyString →
  ∀ (body body' : string) (acc out : list part),
    Str.size body < SizeT.modulus →
    Forall (λ p, ∃ s, free_of delimiter s ∧ part_within s p) acc →
    while fuel (λ st, negb (String.eqb st.1 crlf)) (parse_body_body delimiter)
      (body, acc) = Some (Ok (body', out)) →
    Forall (λ p, ∃ s, free_of delimiter s ∧ part_within s p) out.
Proof.
  intros Hne. induction fuel as [|fuel IH];
    intros body body' acc out Hfit Hacc Hw.
  - simpl in Hw. destruct (negb _); [discriminate|]. by injection Hw as <- <-.
  - rewrite while_unfold in Hw. cbn [fst] in Hw.
    destruct (negb _); [|by injection Hw as <- <-].
    destruct (parse_body_body delimiter (body, acc)) as [[b1 s1]| |] eqn:Hb;
      try discriminate.
    apply parse_body_body_cases in Hb as (section & Hsub & Her & Hcase).
    rewrite erase_0 in Her. injection Her as <-.
    eapply IH; [| |exact Hw].
    + pose proof (size_substring _ _ (substring_of_drop
        (N.to_nat (N.min (Str.find body delimiter +ₛ Str.size delimiter +ₛ 2)
                         (Str.size body))) body)). lia.
    + destruct Hcase as [[_ ->] | (Hnes & p & Hp & ->)]; [exact Hacc|].
      apply Forall_app. split; [exact Hacc|]. constructor; [|constructor].
      exists section. revert Hsub.
      destruct (find_cases body delimiter) as [a b Hs Hf | Hf]; intros Hsub.
      * subst body. rewrite substr_prefix in Hsub. injection Hsub as <-.
        split; [by apply (free_of_before_first _ _ (delimiter +:+ b))|].
        apply parse_section_within; [|exact Hp].
        rewrite !size_app in Hfit. lia.
      * rewrite substr_whole in Hsub by (unfold Str.npos, SizeT.max; lia).
        injection Hsub as <-. split; [exact Hf|].
        by apply parse_section_within.
Qed.

(** The round trip for plain boundaries: when the boundary has none of the
    characters CR, LF, colon, space, semicolon, equals sign and double
    quote, every message parsed from a body is parsed back from its
    serialization. *)
Theorem parse_dump_round_trip_plain (fuel : nat) (b body : string)
    (ps : list part) :
  plain b →
  Str.size body < SizeT.modulus →
  parse_body fuel b body = Some (Ok ps) →
  N.of_nat (length ps) < 2 ^ 31 →
  Str.size (dump_text iteration (Message b ps)) < SizeT.modulus →
  ∃ text,
    dump iteration (Message b ps) = Ok text
    ∧ parse_body (S (length ps)) b text = Some (Ok ps).
Proof.
  intros Hplain Hfit Hparse Hcount Hfit'.
  apply (round_trip_delimiter_after iteration iteration_perm fuel b body);
    try assumption.
  unfold parse_body in Hparse.
  destruct (while fuel _ _ _) as [[[b' ss]| |]|] eqn:Hw; simpl in Hparse;
    try discriminate.
  injection Hparse as ->.
  apply parse_body_loop_free in Hw; [|done|exact Hfit|constructor].
  eapply Forall_impl; [exact Hw|]. intros p (s & Hfree & Hwithin).
  apply (delimiter_after_part_within (dd +:+ b) s);
    [by apply plain_delimiter | exact Hfree | exact Hwithin].
Qed.

End PlainBoundary.

Example plain_boundaries :
  plain "X" ∧ plain "----WebKitFormBoundary7MA4YWxkTrZu0gW"
  ∧ ¬ plain quote_boundary ∧ ¬ plain "a b".
Proof.
  split; [by repeat constructor|]. split; [by repeat constructor|].
  split; intros (_&_&_&Hsp&_&_&Hq)%plain_chars; discriminate.
Qed.

(** For the boundary [X] and the map order of the model: every body that
    [parse_body] parses is parsed back from the serialization of its
    parts. *)
Corollary parse_dump_round_trip_boundary_X (fuel : nat) (body : string)
    (ps : list part) :
  Str.size body < SizeT.modulus →
  parse_body fuel "X" body = Some (Ok ps) →
  N.of_nat (length ps) < 2 ^ 31 →
  Str.size (dump_text map_to_list (Message "X" ps)) < SizeT.modulus →
  ∃ text,
    dump map_to_list (Message "X" ps) = Ok text
    ∧ parse_body (S (length ps)) "X" text = Some (Ok ps).
Proof.
  apply parse_dump_round_trip_plain; [done | by repeat constructor].
Qed.

(** * Further properties of the parser and the serializer *)

(** ** Quotes *)

(** X1. [trim] undoes [pad]: a value that [dump] wrapped in quotes comes
    back as it was, whatever it holds (quotes of its own included). *)
Theorem trim_undoes_pad (s : string) (c : ascii) :
  Str.size s + 2 < SizeT.modulus → trim (pad s c) c = Ok s.
Proof. exact (trim_pad s c). Qed.

Lemma trim_undoes_pad_witness :
  trim (pad (quoted "a") dquote) dquote = Ok (quoted "a").
Proof. apply (trim_undoes_pad (quoted "a") dquote). by vm_compute. Defined.

(** X2. [trim] returns unchanged every string that is not some text
    between two [excess] characters: the empty string, a lone quote, a
    string quoted at one end only. *)
Theorem trim_keeps_unwrapped (s : string) (c : ascii) :
  Str.size s < SizeT.modulus → (∀ t, s ≠ pad t c) → trim s c = Ok s.
Proof.
  intros Hfit Hnot. unfold trim.
  destruct (1 <? Str.size s) eqn:Hlen; cbn [andb]; [|done].
  apply N.ltb_lt in Hlen.
  destruct (Ascii.eqb_spec (Str.at_ s 0) c) as [H0|]; cbn [andb]; [|done].
  destruct (Ascii.eqb_spec (Str.at_ s (Str.size s -ₛ 1)) c) as [H1|]; [|done].
  exfalso. rewrite sub_small in H1 by lia.
  destruct s as [|x s]; [by vm_compute in Hlen|].
  change (Str.at_ (String x s) 0) with x in H0. subst x.
  destruct (split_last s) as (t & y & ->).
  { intros ->. by vm_compute in Hlen. }
  assert (Str.size (String c (t +:+ String y EmptyString)) = Str.size t + 2)
    as Hsz.
  { unfold Str.size. cbn [String.length]. rewrite length_app. simpl. lia. }
  rewrite Hsz in H1.
  replace (Str.size t + 2 - 1) with (Str.size (String c t)) in H1
    by (unfold Str.size; cbn [String.length]; lia).
  rewrite <- app_String, at_app_size in H1. subst y.
  by apply (Hnot t).
Qed.

Lemma trim_keeps_unwrapped_witness :
  trim (Str.of_char dquote) dquote = Ok (Str.of_char dquote).
Proof.
  apply (trim_keeps_unwrapped (Str.of_char dquote) dquote).
  - by vm_compute.
  - intros t H. apply (f_equal String.length) in H.
    unfold pad in H. cbn [String.length Str.of_char] in H.
    rewrite length_app in H. simpl in H. lia.
Defined.

(** ** Parameter tokens *)

(** X3. A parameter token is split at its first [=]: the text before it is
    the name, everything after it, further [=] included, is the value,
    with one pair of surrounding quotes removed. *)
Theorem param_of_token_splits_at_first_equals (k raw : string) :
  has1 "=" k = false →
  Str.size (k +:+ "=" +:+ raw) < SizeT.modulus →
  ∃ v, trim raw dquote = Ok v
       ∧ param_of_token (k +:+ "=" +:+ raw) = Ok (k, v).
Proof.
  intros Hk Hfit. rewrite param_of_token_with_eq by done.
  destruct (trim_cases raw) as (v & Hv & _).
  { rewrite !size_app in Hfit. lia. }
  exists v. by rewrite Hv.
Qed.

Lemma param_of_token_splits_at_first_equals_witness :
  ∃ v, trim (quoted "b=c") dquote = Ok v
       ∧ param_of_token ("a" +:+ "=" +:+ quoted "b=c") = Ok ("a", v).
Proof.
  apply (param_of_token_splits_at_first_equals "a" (quoted "b=c"));
    by vm_compute.
Defined.

(** X4. A parameter token without [=] is not given an empty value: the
    search returns [npos], [npos + 1] wraps to 0, and the token is stored
    under its own text with its own text, trimmed, as the value. *)
Theorem param_of_token_without_equals (param : string) :
  has1 "=" param = false →
  Str.size param < SizeT.modulus →
  ∃ v, trim param dquote = Ok v ∧ param_of_token param = Ok (param, v).
Proof.
  intros Hp Hfit. rewrite param_of_token_without_eq by done.
  destruct (trim_cases param Hfit) as (v & Hv & _).
  exists v. by rewrite Hv.
Qed.

Lemma param_of_token_without_equals_witness :
  ∃ v, trim "flag" dquote = Ok v ∧ param_of_token "flag" = Ok ("flag", v).
Proof. apply (param_of_token_without_equals "flag"); by vm_compute. Defined.

(** ** The parameters of a line *)

(** X5. The parameters loop ends on every line without throwing, and it
    only adds to the map it is given: no parameter that is already there is
    removed or changed. *)
Theorem parse_params_returns_and_extends (line : string)
    (params : gmap string string) :
  Str.size line < SizeT.modulus →
  ∃ ps, parse_params line params = Ok ps ∧ params ⊆ ps.
Proof. exact (parse_params_total line params). Qed.

Lemma parse_params_returns_and_extends_witness :
  ∃ ps, parse_params "a=1; =; ; a=2" {[ "z" := "0" ]} = Ok ps
        ∧ ({[ "z" := "0" ]} : gmap string string) ⊆ ps.
Proof.
  apply (parse_params_returns_and_extends "a=1; =; ; a=2"). by vm_compute.
Defined.

(** X6. The parameters of a line are separated by a semicolon followed by a
    space, wherever that pair stands (quotes do not protect it): the text
    before the first such pair is one token, and the loop goes on with the
    text after it. *)
Theorem parse_params_splits_at_semicolon_space (a b : string)
    (params : gmap string string) :
  no_semi a →
  Str.size (a +:+ "; " +:+ b) < SizeT.modulus →
  parse_params (a +:+ "; " +:+ b) params
  = ('(name, v) ←! param_of_token a; parse_params b (emplace name v params)).
Proof.
  intros Ha Hfit. unfold parse_params at 1. rewrite while_unfold. cbn [fst].
  assert (Str.empty (a +:+ "; " +:+ b) = false) as ->.
  { apply empty_false. intros H. apply (f_equal String.length) in H.
    rewrite !length_app in H. simpl in H. lia. }
  cbn [negb]. rewrite parse_params_body_found by done.
  pose proof Hfit as Hfit'. rewrite !size_app in Hfit'.
  destruct (param_of_token_total a) as (name & v & ->); [lia|].
  cbn [bind]. unfold parse_params.
  destruct (parse_params_loop_total (S (String.length b)) b
              (emplace name v params)) as (ps & Hps & _); [lia | lia |].
  rewrite (while_fuel_mono _ _ _ _ _ (String.length (a +:+ "; " +:+ b)) Hps).
  - by rewrite Hps.
  - rewrite !length_app. simpl. lia.
Qed.

Lemma parse_params_splits_at_semicolon_space_witness :
  parse_params ("k=" +:+ String dquote "a" +:+ "; "
                +:+ String "b" (Str.of_char dquote)) ∅
  = ('(name, v) ←! param_of_token ("k=" +:+ String dquote "a");
     parse_params (String "b" (Str.of_char dquote)) (emplace name v ∅)).
Proof.
  apply (parse_params_splits_at_semicolon_space
           ("k=" +:+ String dquote "a") (String "b" (Str.of_char dquote)) ∅);
    by vm_compute.
Defined.

(** ** Header lines *)

Lemma header_of_line_throws (line : string) :
  Str.size line < SizeT.modulus →
  header_of_line line = OutOfRange ↔ ∃ rest, line = "; " +:+ rest.
Proof.
  intros Hfit. split.
  - intros Hthrow. unfold header_of_line in Hthrow.
    destruct line as [|c line]; cbn [Str.empty negb] in Hthrow.
    { destruct (parse_params_total EmptyString ∅) as (ps & Hps & _); [done|].
      cbn [bind] in Hthrow. by rewrite Hps in Hthrow. }
    set (l := String c line) in *.
    destruct (find_pair_cases ";" " " l) as [a b Hl Ha | Ha].
    + destruct (decide (a = EmptyString)) as [->|Hne]; [by exists b|].
      exfalso. rewrite Hl in Hthrow, Hfit.
      rewrite parse_primary_found in Hthrow by done.
      rewrite !size_app in Hfit.
      assert (Str.size a < SizeT.modulus) as Hfa by lia.
      destruct (split_header_returns a) as [[pair Hp] | Hp]; [lia| |].
      * rewrite Hp in Hthrow. cbn [bind] in Hthrow.
        destruct (parse_params_total b ∅) as (ps & Hps & _); [lia|].
        by rewrite Hps in Hthrow.
      * destruct (find_pair_cases ":" " " a) as [n v Hn Hc | Hc].
        -- subst a. rewrite split_header_found in Hp; [done | done | exact Hfa].
        -- destruct a as [|x a]; [done|].
           rewrite split_header_not_found in Hp; [done | done | exact Hfa].
    + exfalso. rewrite parse_primary_last in Hthrow by done.
      destruct (find_pair_cases ":" " " l) as [n v Hn Hc | Hc].
      * rewrite Hn in Hthrow, Hfit.
        rewrite split_header_found in Hthrow by done.
        cbn [bind] in Hthrow.
        destruct (parse_params_total EmptyString ∅) as (ps & Hps & _); [done|].
        by rewrite Hps in Hthrow.
      * unfold l in Hthrow. rewrite split_header_not_found in Hthrow by done.
        cbn [bind] in Hthrow.
        destruct (parse_params_total EmptyString ∅) as (ps & Hps & _); [done|].
        by rewrite Hps in Hthrow.
  - intros [rest ->]. by apply header_of_line_leading_semi.
Qed.

(** X7. Parsing one header line throws [std::out_of_range] exactly when the
    line starts with a semicolon followed by a space: the main segment is
    then empty and [substr(npos + 2)] is [substr(1)] of an empty string.
    Every other line, the empty one included, gives a header. *)
Theorem header_of_line_throws_iff (line : string) :
  Str.size line < SizeT.modulus →
  (header_of_line line = OutOfRange ↔ ∃ rest, line = "; " +:+ rest)
  ∧ ((∃ h, header_of_line line = Ok h) ∨ header_of_line line = OutOfRange).
Proof.
  intros Hfit. split.
  - by apply header_of_line_throws.
  - by apply header_of_line_returns.
Qed.

Lemma header_of_line_throws_iff_witness :
  (header_of_line "; name=x" = OutOfRange
   ↔ ∃ rest, "; name=x" = "; " +:+ rest)
  ∧ ((∃ h, header_of_line "; name=x" = Ok h)
     ∨ header_of_line "; name=x" = OutOfRange).
Proof. apply (header_of_line_throws_iff "; name=x"). by vm_compute. Defined.

(** X8. A non-empty header line without a colon followed by a space (and
    without parameters) still gets a primary pair: the name is the whole
    line and the value is the line without its first character, since
    [npos + 2] wraps to 1. *)
Theorem header_of_line_without_colon_space (c : ascii) (line : string) :
  has2 ":" " " (String c line) = false →
  no_semi (String c line) →
  Str.size (String c line) < SizeT.modulus →
  header_of_line (String c line) = Ok (Header (String c line, line) ∅).
Proof. exact (header_of_line_without_colon c line). Qed.

Lemma header_of_line_without_colon_space_witness :
  header_of_line "Content-Type:text/plain"
  = Ok (Header ("Content-Type:text/plain", "ontent-Type:text/plain") ∅).
Proof.
  apply (header_of_line_without_colon_space "C" "ontent-Type:text/plain");
    by vm_compute.
Defined.

(** X9. A header line is cut at its first semicolon followed by a space,
    and the segment before it at its first colon followed by a space: the
    name is the text before that colon, the value is the text after it
    (later colons included), and the parameters are read from the rest of
    the line. *)
Theorem header_of_line_name_value_parameters (n v rest : string) :
  has2 ":" " " n = false →
  no_semi (n +:+ ": " +:+ v) →
  Str.size ((n +:+ ": " +:+ v) +:+ "; " +:+ rest) < SizeT.modulus →
  ∃ ps, parse_params rest ∅ = Ok ps
        ∧ header_of_line ((n +:+ ": " +:+ v) +:+ "; " +:+ rest)
          = Ok (Header (n, v) ps).
Proof.
  intros Hn Hsemi Hfit. pose proof Hfit as Hfit'.
  rewrite (size_app (n +:+ ": " +:+ v)), (size_app "; ") in Hfit'.
  destruct (parse_params_total rest ∅) as (ps & Hps & _); [lia|].
  exists ps. split; [exact Hps|]. unfold header_of_line.
  assert (Str.empty ((n +:+ ": " +:+ v) +:+ "; " +:+ rest) = false) as ->.
  { apply empty_false. intros H. apply (f_equal String.length) in H.
    rewrite !length_app in H. simpl in H. lia. }
  cbn [negb]. rewrite parse_primary_found by done.
  rewrite split_header_found by (done || lia).
  cbn [bind]. by rewrite Hps.
Qed.

Lemma header_of_line_name_value_parameters_witness :
  ∃ ps, parse_params "name=f; x: y" ∅ = Ok ps
        ∧ header_of_line (("Content-Disposition" +:+ ": " +:+ "form: data")
                          +:+ "; " +:+ "name=f; x: y")
          = Ok (Header ("Content-Disposition", "form: data") ps).
Proof.
  apply (header_of_line_name_value_parameters "Content-Disposition"
           "form: data" "name=f; x: y"); by vm_compute.
Defined.

(** ** The header block *)

Lemma parse_section_head_cons_line (a rest : string) (hs : list header)
    (b : string) :
  no_crlf a →
  Str.size (a +:+ crlf +:+ rest) < SizeT.modulus →
  parse_section_head (a +:+ crlf +:+ rest) (Part hs b)
  = (to_add ←! header_of_line a;
     parse_section_head rest (Part (hs ++ [to_add]) b)).
Proof.
  intros Ha Hfit. unfold parse_section_head at 1. cbn [headers body].
  rewrite while_unfold. cbn [fst].
  assert (Str.empty (a +:+ crlf +:+ rest) = false) as ->.
  { apply empty_false. intros H. apply (f_equal String.length) in H.
    rewrite !length_app in H. simpl in H. lia. }
  cbn [negb]. rewrite parse_section_head_body_found by done.
  pose proof Hfit as Hfit'. rewrite !size_app in Hfit'.
  destruct (header_of_line_returns a) as [[h ->] | ->]; [lia | | done].
  cbn [bind]. unfold parse_section_head. cbn [headers body].
  destruct (parse_section_head_loop_returns (S (String.length rest)) rest
              (hs ++ [h])) as [[hs' Hhs] | Hhs]; [lia | lia | |].
  - rewrite (while_fuel_mono _ _ _ _ _ (String.length (a +:+ crlf +:+ rest))
               Hhs).
    + by rewrite Hhs.
    + rewrite !length_app. simpl. lia.
  - rewrite (while_fuel_mono _ _ _ _ _ (String.length (a +:+ crlf +:+ rest))
               Hhs).
    + by rewrite Hhs.
    + rewrite !length_app. simpl. lia.
Qed.

(** X10. The header block is read line by line: the text before the first
    CRLF is one line, its header is appended to the headers of the part,
    and the loop goes on with the text after that CRLF.  An empty line is a
    line like any other: it appends a header with an empty name, an empty
    value and no parameters. *)
Theorem parse_section_head_line_by_line (a rest : string) (hs : list header)
    (b : string) :
  no_crlf a →
  Str.size (a +:+ crlf +:+ rest) < SizeT.modulus →
  parse_section_head (a +:+ crlf +:+ rest) (Part hs b)
  = (to_add ←! header_of_line a;
     parse_section_head rest (Part (hs ++ [to_add]) b)).
Proof. exact (parse_section_head_cons_line a rest hs b). Qed.

Lemma parse_section_head_line_by_line_witness :
  parse_section_head (EmptyString +:+ crlf +:+ "A: b" +:+ crlf)
    (Part [] EmptyString)
  = (to_add ←! header_of_line EmptyString;
     parse_section_head ("A: b" +:+ crlf) (Part ([] ++ [to_add]) EmptyString)).
Proof.
  apply (parse_section_head_line_by_line EmptyString ("A: b" +:+ crlf) []
           EmptyString); by vm_compute.
Defined.

Lemma parse_section_head_lines_throw (ls : list string) :
  ∀ (hs : list header) (b : string),
    Forall no_crlf ls →
    Str.size (lines_text ls) < SizeT.modulus →
    parse_section_head (lines_text ls) (Part hs b) = OutOfRange
    ↔ Exists (λ l, ∃ rest, l = "; " +:+ rest) ls.
Proof.
  induction ls as [|l ls IH]; intros hs b Hls Hfit.
  - split; [discriminate | by intros ?%Exists_nil].
  - apply Forall_cons in Hls as [Hl Hls].
    cbn [lines_text foldr] in *. fold (lines_text ls) in *.
    rewrite parse_section_head_cons_line by done.
    rewrite !size_app in Hfit.
    pose proof (header_of_line_throws l) as Hthrow.
    rewrite Exists_cons.
    destruct (header_of_line_returns l) as [[h Hh] | Hh]; [lia| |].
    + rewrite Hh. cbn [bind]. rewrite IH by (done || lia).
      split; [by right|]. intros [Hstart | Hrest]; [|done].
      apply Hthrow in Hstart; [|lia]. by rewrite Hh in Hstart.
    + rewrite Hh. cbn [bind]. split; [|done]. intros _. left.
      apply Hthrow; [lia | done].
Qed.

Lemma parse_section_head_returns (lines : string) (p : part) :
  Str.size lines < SizeT.modulus →
  (∃ p', parse_section_head lines p = Ok p')
  ∨ parse_section_head lines p = OutOfRange.
Proof.
  intros Hfit. unfold parse_section_head.
  destruct (parse_section_head_loop_returns (S (String.length lines)) lines
              (headers p)) as [[hs ->] | ->]; [done | lia | |by right].
  left. by eexists.
Qed.

(** X11. Reading a header block throws [std::out_of_range] exactly when
    one of its lines starts with a semicolon followed by a space; on every
    other block it returns. *)
Theorem parse_section_head_throws_iff (ls : list string) (hs : list header)
    (b : string) :
  Forall no_crlf ls →
  Str.size (lines_text ls) < SizeT.modulus →
  (parse_section_head (lines_text ls) (Part hs b) = OutOfRange
   ↔ Exists (λ l, ∃ rest, l = "; " +:+ rest) ls)
  ∧ ((∃ p, parse_section_head (lines_text ls) (Part hs b) = Ok p)
     ∨ parse_section_head (lines_text ls) (Part hs b) = OutOfRange).
Proof.
  intros Hls Hfit. split.
  - by apply parse_section_head_lines_throw.
  - by apply parse_section_head_returns.
Qed.

Lemma parse_section_head_throws_iff_witness :
  (parse_section_head (lines_text ["A: b"; "; x=1"]) (Part [] EmptyString)
   = OutOfRange
   ↔ Exists (λ l, ∃ rest, l = "; " +:+ rest) ["A: b"; "; x=1"])
  ∧ ((∃ p, parse_section_head (lines_text ["A: b"; "; x=1"])
             (Part [] EmptyString) = Ok p)
     ∨ parse_section_head (lines_text ["A: b"; "; x=1"])
         (Part [] EmptyString) = OutOfRange).
Proof.
  apply (parse_section_head_throws_iff ["A: b"; "; x=1"] [] EmptyString).
  - repeat constructor.
  - by vm_compute.
Defined.

(** ** Sections *)

(** X12. Whatever a non-empty section holds, the part parsed from it has at
    least one header, and in every header the name holds no colon followed
    by a space, no parameter name holds [=], and no name or value, primary
    or parameter, holds a semicolon followed by a space or a CRLF. *)
Theorem parse_section_builds_well_formed_part (section : string) (p : part) :
  section ≠ EmptyString →
  Str.size section < SizeT.modulus →
  parse_section section = Ok p →
  wf_part p.
Proof. exact (parse_section_wf section p). Qed.

Lemma parse_section_builds_well_formed_part_witness :
  wf_part (Part [Header (CR, EmptyString) ∅] "ody").
Proof.
  apply (parse_section_builds_well_formed_part (crlf +:+ "body" +:+ crlf));
    by vm_compute.
Defined.

(** X13. [parse_section] comes back on every section: the loops over the
    lines and over the parameters end within the length of their text, and
    the result is a part or a thrown [std::out_of_range]. *)
Theorem parse_section_returns_or_throws (section : string) :
  Str.size section < SizeT.modulus →
  (∃ p, parse_section section = Ok p) ∨ parse_section section = OutOfRange.
Proof. exact (parse_section_returns section). Qed.

Lemma parse_section_returns_or_throws_witness :
  (∃ p, parse_section ("; x" +:+ crlf +:+ crlf +:+ "hello" +:+ crlf) = Ok p)
  ∨ parse_section ("; x" +:+ crlf +:+ crlf +:+ "hello" +:+ crlf) = OutOfRange.
Proof.
  apply (parse_section_returns_or_throws
           ("; x" +:+ crlf +:+ crlf +:+ "hello" +:+ crlf)).
  by vm_compute.
Defined.

(** X14. A section without a blank line is not taken for a body without
    headers: the search returns [npos], [npos + 2] and [npos + 4] wrap to 1
    and 3, so the first character becomes the name of a header with an
    empty value, the next two characters are lost, and the body is what
    follows, without the last two characters of the section. *)
Theorem parse_section_without_blank_line (c1 c2 c3 x y : ascii)
    (text : string) :
  free_of (crlf +:+ crlf)
    (String c1 (String c2 (String c3 (text +:+ pair_of x y)))) →
  Str.size (String c1 (String c2 (String c3 (text +:+ pair_of x y))))
    < SizeT.modulus →
  parse_section (String c1 (String c2 (String c3 (text +:+ pair_of x y))))
  = Ok (Part [Header (Str.of_char c1, EmptyString) ∅] text).
Proof.
  unfold pair_of. intros Hfree Hfit. unfold parse_section, Str.find.
  unfold free_of in Hfree. rewrite Hfree.
  change (Str.npos +ₛ 2) with 1. change (Str.npos +ₛ 4) with 3.
  set (last2 := String x (String y EmptyString)) in *.
  assert (Str.size (text +:+ last2) = Str.size text + 2) as Hsz.
  { rewrite size_app. reflexivity. }
  assert (Str.size (String c1 (String c2 (String c3 (text +:+ last2))))
          = Str.size text + 5) as Hsz'.
  { unfold Str.size in *. cbn [String.length]. lia. }
  rewrite Hsz' in Hfit.
  rewrite substr_0, erase_0, Hsz'.
  rewrite !N.min_l by lia.
  change (N.to_nat 1) with 1%nat. change (N.to_nat 3) with 3%nat.
  cbn [Str.take Str.drop bind].
  assert (parse_section_head (String c1 EmptyString) (Part [] EmptyString)
          = Ok (Part [Header (Str.of_char c1, EmptyString) ∅] EmptyString))
    as ->.
  { unfold parse_section_head. cbn [headers body String.length].
    rewrite while_unfold. cbn [fst Str.empty negb].
    assert (has2 "013" "010" (String c1 EmptyString) = false) as Hline.
    { cbn [has2 head_is]. by rewrite andb_false_r. }
    assert (has2 ":" " " (String c1 EmptyString) = false) as Hcolon.
    { cbn [has2 head_is]. by rewrite andb_false_r. }
    assert (has2 ";" " " (String c1 EmptyString) = false) as Hsemi.
    { cbn [has2 head_is]. by rewrite andb_false_r. }
    rewrite parse_section_head_body_not_found by done.
    rewrite header_of_line_without_colon by done.
    cbn [bind Str.drop]. rewrite while_exit by done. reflexivity. }
  cbn [bind headers]. rewrite Hsz, sub_small by lia.
  replace (Str.size text + 2 - 2) with (Str.size text) by lia.
  by rewrite substr_prefix.
Qed.

Lemma parse_section_without_blank_line_witness :
  parse_section (crlf +:+ "body" +:+ crlf)
  = Ok (Part [Header (CR, EmptyString) ∅] "ody").
Proof.
  apply (parse_section_without_blank_line "013" "010" "b" "013" "010" "ody");
    by vm_compute.
Defined.



(** ** Splitting the body *)

Lemma parse_body_loop_suffix (fuel : nat) (delimiter : string) :
  ∀ (body body' : string) (acc out : list part),
    while fuel (λ st, negb (String.eqb st.1 crlf)) (parse_body_body delimiter)
      (body, acc) = Some (Ok (body', out)) →
    body' = crlf ∧ ∃ pre, body = pre +:+ body'.
Proof.
  induction fuel as [|fuel IH]; intros body body' acc out Hw.
  - simpl in Hw. destruct (String.eqb_spec body crlf) as [->|]; [|done].
    injection Hw as <- _. split; [done|]. by exists EmptyString.
  - rewrite while_unfold in Hw. cbn [fst] in Hw.
    destruct (String.eqb_spec body crlf) as [->|]; cbn [negb] in Hw.
    { injection Hw as <- _. split; [done|]. by exists EmptyString. }
    destruct (parse_body_body delimiter (body, acc)) as [[b1 s1]| |] eqn:Hb;
      try discriminate.
    apply parse_body_body_cases in Hb as (section & _ & Her & _).
    rewrite erase_0 in Her. injection Her as <-.
    destruct (IH _ _ _ _ Hw) as (-> & pre & Hpre). split; [done|].
    set (k := N.to_nat _) in Hpre. exists (Str.take k body +:+ pre).
    by rewrite app_assoc_s, <- Hpre, take_drop.
Qed.

(** X16. The loop of [parse_body] is left only when the buffer is exactly a
    CRLF, and the buffer is only ever shortened from the front: when
    [parse_body] returns its parts, the body ends with a CRLF.  On any other
    body the call does not return its parts. *)
Theorem parse_body_returns_only_with_final_crlf (fuel : nat)
    (b body : string) (ps : list part) :
  parse_body fuel b body = Some (Ok ps) → ∃ pre, body = pre +:+ crlf.
Proof.
  intros Hp. unfold parse_body in Hp.
  destruct (while fuel _ _ _) as [[[b' ss]| |]|] eqn:Hw; simpl in Hp;
    try discriminate.
  apply parse_body_loop_suffix in Hw as (-> & pre & ->). by exists pre.
Qed.

Lemma parse_body_returns_only_with_final_crlf_witness :
  ∃ pre, scenario_A = pre +:+ crlf.
Proof.
  apply (parse_body_returns_only_with_final_crlf 2 "X" scenario_A
           [Part [Header ("Content-Disposition", "form-data")
                    {[ "name" := "f" ]}] "hello"]).
  vm_compute. reflexivity.
Defined.

(** X17. Every part that [parse_body] returns has at least one header, and
    its headers are as [parse_section] builds them: no name with a colon
    followed by a space, no parameter name with [=], and no name or value
    with a semicolon followed by a space or with a CRLF. *)
Theorem parse_body_builds_well_formed_parts (fuel : nat) (b body : string)
    (ps : list part) :
  Str.size body < SizeT.modulus →
  parse_body fuel b body = Some (Ok ps) →
  Forall wf_part ps.
Proof. exact (parse_body_wf fuel b body ps). Qed.

Lemma parse_body_builds_well_formed_parts_witness :
  Forall wf_part [Part [Header (CR, EmptyString) ∅] "ody"].
Proof.
  apply (parse_body_builds_well_formed_parts 2 "X" scenario_B);
    vm_compute; reflexivity.
Defined.

(** The parts collected before a round do not influence it, nor the rounds
    after it. *)
Lemma parse_body_body_acc (delimiter body : string) (acc : list part) :
  parse_body_body delimiter (body, acc)
  = ('(body', out) ←! parse_body_body delimiter (body, []);
     Ok (body', acc ++ out)).
Proof.
  unfold parse_body_body.
  destruct (Str.substr body 0 _) as [section| |]; cbn [bind]; [|done|done].
  destruct (Str.erase body 0 _) as [b1| |]; cbn [bind]; [|done|done].
  destruct (negb (Str.empty section)); cbn [bind]; [|by rewrite app_nil_r].
  destruct (parse_section section) as [p| |]; cbn [bind]; done.
Qed.

Lemma parse_body_loop_acc (fuel : nat) (delimiter : string) :
  ∀ (body : string) (acc : list part),
    while fuel (λ st, negb (String.eqb st.1 crlf)) (parse_body_body delimiter)
      (body, acc)
    = match while fuel (λ st, negb (String.eqb st.1 crlf))
              (parse_body_body delimiter) (body, []) with
      | Some (Ok (body', out)) => Some (Ok (body', acc ++ out))
      | Some OutOfRange => Some OutOfRange
      | Some Undefined => Some Undefined
      | None => None
      end.
Proof.
  induction fuel as [|fuel IH]; intros body acc.
  - simpl. destruct (negb _); [done|]. by rewrite app_nil_r.
  - rewrite !while_unfold. cbn [fst].
    destruct (negb _); [|by rewrite app_nil_r].
    rewrite (parse_body_body_acc delimiter body acc).
    destruct (parse_body_body delimiter (body, [])) as [[b1 o1]| |];
      cbn [bind]; [|done|done].
    rewrite (IH b1 (acc ++ o1)), (IH b1 o1).
    destruct (while fuel _ _ (b1, [])) as [[[b' out]| |]|]; [|done..].
    by rewrite <- app_assoc.
Qed.

(** X18. The body is split at the first delimiter: the text before it is
    one section, parsed unless it is empty (text before the first delimiter
    of a message included); the delimiter and the two characters after it
    are dropped, whatever these are, and the splitting goes on with the
    rest.  A section that makes [parse_section] throw ends the call, whether
    or not the rest could be split. *)
Theorem parse_body_section_by_section (fuel : nat) (b sec sep rest : string) :
  Str.find (sec +:+ (dd +:+ b) +:+ sep +:+ rest) (dd +:+ b) = Str.size sec →
  Str.size sep = 2 →
  Str.size (sec +:+ (dd +:+ b) +:+ sep +:+ rest) < SizeT.modulus →
  parse_body (S fuel) b (sec +:+ (dd +:+ b) +:+ sep +:+ rest)
  = if Str.empty sec then parse_body fuel b rest
    else match parse_section sec with
         | Ok p => (λ r, ps ←! r; Ok (p :: ps)) <$> parse_body fuel b rest
         | OutOfRange => Some OutOfRange
         | Undefined => Some Undefined
         end.
Proof.
  intros Hfind Hsep Hfit. unfold parse_body at 1.
  set (delimiter := dd +:+ b) in *.
  rewrite while_unfold. cbn [fst].
  rewrite eqb_crlf_long.
  2:{ unfold Str.size in Hsep. rewrite !length_app.
      change (String.length delimiter) with (S (S (String.length b))). lia. }
  cbn [negb].
  assert (parse_body_body delimiter (sec +:+ delimiter +:+ sep +:+ rest, [])
          = if negb (Str.empty sec)
            then p ←! parse_section sec; Ok (rest, [p])
            else Ok (rest, [])) as ->.
  { unfold parse_body_body. rewrite Hfind.
    rewrite substr_prefix. cbn [bind].
    rewrite !size_app in Hfit.
    rewrite (add_small (Str.size sec) (Str.size delimiter)) by lia.
    rewrite add_small by lia.
    replace (Str.size sec + Str.size delimiter + 2)
      with (Str.size (sec +:+ delimiter +:+ sep)) by (rewrite !size_app; lia).
    assert (sec +:+ delimiter +:+ sep +:+ rest
            = (sec +:+ delimiter +:+ sep) +:+ rest) as ->
      by (by rewrite !app_assoc_s).
    rewrite erase_prefix. reflexivity. }
  destruct (Str.empty sec); cbn [negb]; [reflexivity|].
  destruct (parse_section sec) as [p| |]; cbn [bind]; [|done|done].
  rewrite parse_body_loop_acc. unfold parse_body. fold delimiter.
  destruct (while fuel _ _ (rest, [])) as [[[b' out]| |]|]; reflexivity.
Qed.

Lemma parse_body_section_by_section_witness :
  parse_body 2 "X"
    (("A: b" +:+ crlf +:+ crlf +:+ "preamble" +:+ crlf)
     +:+ (dd +:+ "X") +:+ "!?" +:+ crlf)
  = if Str.empty ("A: b" +:+ crlf +:+ crlf +:+ "preamble" +:+ crlf)
    then parse_body 1 "X" crlf
    else match parse_section
                 ("A: b" +:+ crlf +:+ crlf +:+ "preamble" +:+ crlf) with
         | Ok p => (λ r, ps ←! r; Ok (p :: ps)) <$> parse_body 1 "X" crlf
         | OutOfRange => Some OutOfRange
         | Undefined => Some Undefined
         end.
Proof.
  apply (parse_body_section_by_section 1 "X"
           ("A: b" +:+ crlf +:+ crlf +:+ "preamble" +:+ crlf) "!?" crlf);
    by vm_compute.
Defined.

(** ** Every field of a parsed message comes from the body *)

Lemma part_within_mono (s s' : string) (p : part) :
  substring_of s s' → part_within s p → part_within s' p.
Proof.
  intros Hs [Hh Hb]. split.
  - eapply Forall_impl; [exact Hh|]. intros h. by apply header_within_mono.
  - by eapply substring_of_trans.
Qed.

Lemma parse_body_loop_within (whole : string) (fuel : nat)
    (delimiter : string) :
  ∀ (body body' : string) (acc out : list part),
    Str.size body < SizeT.modulus →
    substring_of body whole →
    Forall (part_within whole) acc →
    while fuel (λ st, negb (String.eqb st.1 crlf)) (parse_body_body delimiter)
      (body, acc) = Some (Ok (body', out)) →
    Forall (part_within whole) out.
Proof.
  induction fuel as [|fuel IH]; intros body body' acc out Hfit Hsub Hacc Hw.
  - simpl in Hw. destruct (negb _); [discriminate|]. by injection Hw as <- <-.
  - rewrite while_unfold in Hw. cbn [fst] in Hw.
    destruct (negb _); [|by injection Hw as <- <-].
    destruct (parse_body_body delimiter (body, acc)) as [[b1 s1]| |] eqn:Hb;
      try discriminate.
    apply parse_body_body_cases in Hb as (section & Hsec & Her & Hcase).
    rewrite substr_0 in Hsec. rewrite erase_0 in Her.
    injection Hsec as <-. injection Her as <-.
    eapply IH; [| | |exact Hw].
    + pose proof (size_substring _ _ (substring_of_drop
        (N.to_nat (N.min (Str.find body delimiter +ₛ Str.size delimiter +ₛ 2)
                         (Str.size body))) body)). lia.
    + eapply substring_of_trans; [apply substring_of_drop | exact Hsub].
    + destruct Hcase as [[_ ->] | (Hne & p & Hp & ->)]; [exact Hacc|].
      apply Forall_app. split; [exact Hacc|]. constructor; [|constructor].
      eapply part_within_mono; [|apply parse_section_within; [|exact Hp]].
      * eapply substring_of_trans; [apply substring_of_take | exact Hsub].
      * pose proof (size_substring _ _ (substring_of_take
          (N.to_nat (N.min (Str.find body delimiter) (Str.size body))) body)).
        lia.
Qed.

(** X19. The parser copies and never composes: every header name, header
    value, parameter name, parameter value and body of every part that
    [parse_body] returns occurs in the body text as a contiguous piece. *)
Theorem parse_body_fields_occur_in_body (fuel : nat) (b body : string)
    (ps : list part) :
  Str.size body < SizeT.modulus →
  parse_body fuel b body = Some (Ok ps) →
  Forall (part_within body) ps.
Proof.
  intros Hfit Hp. unfold parse_body in Hp.
  destruct (while fuel _ _ _) as [[[b' ss]| |]|] eqn:Hw; simpl in Hp;
    try discriminate.
  injection Hp as ->.
  apply (parse_body_loop_within body fuel (dd +:+ b) body b' [] ps);
    [done | apply substring_of_refl | constructor | exact Hw].
Qed.

Lemma parse_body_fields_occur_in_body_witness :
  Forall (part_within scenario_A)
    [Part [Header ("Content-Disposition", "form-data")
             {[ "name" := "f" ]}] "hello"].
Proof.
  apply (parse_body_fields_occur_in_body 2 "X" scenario_A);
    vm_compute; reflexivity.
Defined.

(** ** The boundary of a request *)

Lemma get_boundary_after_prefix (prefix token : string) :
  prefix ≠ EmptyString →
  Str.find (prefix +:+ boundary_text +:+ token) boundary_text
    = Str.size prefix →
  head_is dquote token = false →
  Str.size (prefix +:+ boundary_text +:+ token) < SizeT.modulus →
  get_boundary (prefix +:+ boundary_text +:+ token) = Ok token.
Proof.
  intros Hne Hfind Hq Hfit.
  assert (Str.size prefix ≠ 0) as Hpos.
  { destruct prefix; [done|]. unfold Str.size. simpl. lia. }
  rewrite get_boundary_unfold_found by (by rewrite Hfind).
  rewrite Hfind. rewrite !size_app in Hfit.
  change (Str.size boundary_text) with 9 in Hfit.
  rewrite add_small by lia.
  replace (Str.size prefix + 9) with (Str.size (prefix +:+ boundary_text))
    by (rewrite size_app; reflexivity).
  rewrite <- app_assoc_s, substr_suffix by (unfold Str.npos, SizeT.max; lia).
  cbn [bind].
  destruct token as [|c token]; [reflexivity|].
  change (Str.at_ (String c token) 0) with c.
  cbn [head_is] in Hq. by rewrite Hq.
Qed.

(** X20. When [boundary=] is first found after the start of the
    Content-Type value and is not followed by a quote, the boundary is
    everything after it up to the end of the value: parameters after the
    boundary are not cut off. *)
Theorem get_boundary_takes_rest_of_value (prefix token : string) :
  prefix ≠ EmptyString →
  Str.find (prefix +:+ boundary_text +:+ token) boundary_text
    = Str.size prefix →
  head_is dquote token = false →
  Str.size (prefix +:+ boundary_text +:+ token) < SizeT.modulus →
  get_boundary (prefix +:+ boundary_text +:+ token) = Ok token.
Proof. exact (get_boundary_after_prefix prefix token). Qed.

Lemma get_boundary_takes_rest_of_value_witness :
  get_boundary ("multipart/form-data; " +:+ boundary_text
                +:+ "X; charset=utf-8")
  = Ok "X; charset=utf-8".
Proof.
  apply (get_boundary_takes_rest_of_value "multipart/form-data; "
           "X; charset=utf-8"); by vm_compute.
Defined.

(** X21. When [boundary=] is followed by a quote, the boundary is what
    stands between that quote and the last character of the Content-Type
    value; the last character is cut off whether or not it is a quote. *)
Theorem get_boundary_quoted_drops_last_character (prefix inner : string)
    (last : ascii) :
  prefix ≠ EmptyString →
  Str.find (prefix +:+ boundary_text
            +:+ String dquote (inner +:+ Str.of_char last)) boundary_text
    = Str.size prefix →
  Str.size (prefix +:+ boundary_text
            +:+ String dquote (inner +:+ Str.of_char last)) < SizeT.modulus →
  get_boundary (prefix +:+ boundary_text
                +:+ String dquote (inner +:+ Str.of_char last))
  = Ok inner.
Proof.
  intros Hne Hfind Hfit.
  assert (Str.size prefix ≠ 0) as Hpos.
  { destruct prefix; [done|]. unfold Str.size. simpl. lia. }
  rewrite get_boundary_unfold_found by (by rewrite Hfind).
  rewrite Hfind. rewrite !size_app in Hfit.
  change (Str.size boundary_text) with 9 in Hfit.
  assert (Str.size (String dquote (inner +:+ Str.of_char last))
          = Str.size inner + 2) as Hsz.
  { unfold Str.size. cbn [String.length]. rewrite length_app. simpl. lia. }
  rewrite Hsz in Hfit.
  rewrite add_small by lia.
  replace (Str.size prefix + 9) with (Str.size (prefix +:+ boundary_text))
    by (rewrite size_app; reflexivity).
  rewrite <- app_assoc_s, substr_suffix
    by (rewrite Hsz; unfold Str.npos, SizeT.max; lia).
  cbn [bind].
  change (Str.at_ (String dquote (inner +:+ Str.of_char last)) 0)
    with dquote.
  rewrite Ascii.eqb_refl, Hsz, sub_small by lia.
  replace (Str.size inner + 2 - 2) with (Str.size inner) by lia.
  unfold Str.substr. rewrite Hsz.
  destruct (N.ltb_spec (Str.size inner + 2) 1); [lia|].
  rewrite N.min_l by lia. change (N.to_nat 1) with 1%nat. cbn [Str.drop].
  unfold Str.size. by rewrite Nat2N.id, take_app_length.
Qed.

Lemma get_boundary_quoted_drops_last_character_witness :
  get_boundary ("multipart/form-data; " +:+ boundary_text
                +:+ String dquote ("X" +:+ Str.of_char ";"))
  = Ok "X".
Proof.
  apply (get_boundary_quoted_drops_last_character "multipart/form-data; "
           "X" ";"); by vm_compute.
Defined.




(** X23. Building a message from a request whose Content-Type value has
    fewer than 8 characters and no [boundary=] (an absent or empty
    Content-Type included) throws [std::out_of_range], whatever the body:
    the search returns [npos], and [substr(npos + 9)] is [substr(8)]. *)
Theorem message_of_request_short_content_type (fuel : nat)
    (content_type body : string) :
  free_of boundary_text content_type →
  Str.size content_type < 8 →
  message_of_request fuel content_type body = Some OutOfRange.
Proof.
  intros Hfree Hshort. unfold message_of_request.
  rewrite get_boundary_not_found by (unfold Str.find; by rewrite Hfree).
  unfold Str.substr. destruct (N.ltb_spec (Str.size content_type) 8); [|lia].
  reflexivity.
Qed.

Lemma message_of_request_short_content_type_witness :
  message_of_request 0 EmptyString scenario_A = Some OutOfRange.
Proof.
  apply (message_of_request_short_content_type 0 EmptyString scenario_A);
    by vm_compute.
Defined.

(** ** Parsing what the serializer writes *)

Section Serialized.
Variable iteration : gmap string string → list (string * string).
Hypothesis iteration_perm : ∀ m, iteration m ≡ₚ map_to_list m.

(** X24. [parse_section] undoes [dump(int)]: for every part with at least
    one header whose names and values are free of the separators of the
    format (see [wf_part]), parsing the text that [dump(i)] returns gives
    the part back, whatever its body holds and in whatever order the
    parameters are written. *)
Theorem parse_section_undoes_dump_part (m : message) (i : nat) (item : part) :
  parts m !! i = Some item →
  N.of_nat i < 2 ^ 31 →
  wf_part item →
  Str.size (dump_item iteration item) < SizeT.modulus →
  ∃ text, dump_part iteration m (Z.of_nat i) = Ok text
          ∧ parse_section text = Ok item.
Proof.
  intros Hi Hint Hwf Hfit. exists (dump_item iteration item). split.
  - apply dump_part_in_range; [exact Hi|].
    change (2 ^ 31) with 2147483648 in Hint. rewrite modulus_value. lia.
  - by apply parse_section_rendered.
Qed.

(** X25. For a message with fewer than 2^31 parts, [dump()] reads every
    part within range (the [unsigned] counter handed to [dump(int)] is a
    valid index) and returns, for every part in order, the delimiter line
    and the text of the part, followed by the closing delimiter line. *)
Theorem dump_returns_parts_between_delimiters (m : message) :
  N.of_nat (length (parts m)) < 2 ^ 31 →
  dump iteration m
  = Ok (parts_text iteration (dd +:+ boundary m) (parts m)
        +:+ (dd +:+ boundary m) +:+ dd +:+ crlf).
Proof. exact (dump_is_dump_text iteration m). Qed.

Lemma parse_body_dump_text (b : string) (ps : list part) :
  Forall wf_part ps →
  Forall (delimiter_after iteration (dd +:+ b)) ps →
  Str.size (dump_text iteration (Message b ps)) < SizeT.modulus →
  parse_body (S (length ps)) b (dump_text iteration (Message b ps))
  = Some (Ok ps).
Proof.
  intros Hwf Hdelim Hfit.
  rewrite dump_text_remaining in *. unfold parse_body.
  rewrite while_unfold. cbn [fst].
  assert (String.eqb ((dd +:+ b) +:+ after_delimiter ps
                      +:+ remaining_text iteration (dd +:+ b) ps) crlf
          = false) as -> by reflexivity.
  cbn [negb].
  rewrite parse_body_body_first by (apply size_after_delimiter || done).
  rewrite !size_app in Hfit.
  rewrite (parse_body_loop_rendered iteration (dd +:+ b) ps []);
    [reflexivity| | | |].
  - exact Hdelim.
  - pose proof (size_dump_item_remaining iteration (dd +:+ b) ps) as Hsz.
    rewrite Forall_forall in Hwf. rewrite Forall_forall in Hsz.
    apply Forall_forall. intros p Hin.
    apply parse_section_rendered; [exact iteration_perm | by apply Hwf |].
    specialize (Hsz p Hin). cbn beta in Hsz. lia.
  - lia.
  - lia.
Qed.

(** X26. [parse_body] undoes [dump()] for messages built in memory as
    well: when every part has at least one header, names and values are
    free of the separators of the format (see [wf_part]) and no serialized
    part runs into the delimiter, parsing the text of [dump()] returns the
    parts of the message, in one round more than there are parts. *)
Theorem parse_body_undoes_dump (b : string) (ps : list part) :
  Forall wf_part ps →
  Forall (delimiter_after iteration (dd +:+ b)) ps →
  N.of_nat (length ps) < 2 ^ 31 →
  Str.size (dump_text iteration (Message b ps)) < SizeT.modulus →
  ∃ text,
    dump iteration (Message b ps) = Ok text
    ∧ parse_body (S (length ps)) b text = Some (Ok ps).
Proof.
  intros Hwf Hdelim Hcount Hfit.
  exists (dump_text iteration (Message b ps)). split.
  - by apply dump_is_dump_text.
  - by apply parse_body_dump_text.
Qed.

(** X27. A message sent and received: when the text of [dump()] is the
    body of a request whose Content-Type value holds [boundary=] (first
    found after the start of the value, not followed by a quote) and ends
    with the boundary, the message built from the request has that boundary
    and the parts of the message that was serialized. *)
Theorem message_of_request_undoes_dump (prefix b : string) (ps : list part) :
  prefix ≠ EmptyString →
  Str.find (prefix +:+ boundary_text +:+ b) boundary_text = Str.size prefix →
  head_is dquote b = false →
  Str.size (prefix +:+ boundary_text +:+ b) < SizeT.modulus →
  Forall wf_part ps →
  Forall (delimiter_after iteration (dd +:+ b)) ps →
  N.of_nat (length ps) < 2 ^ 31 →
  Str.size (dump_text iteration (Message b ps)) < SizeT.modulus →
  ∃ text,
    dump iteration (Message b ps) = Ok text
    ∧ message_of_request (S (length ps)) (prefix +:+ boundary_text +:+ b) text
      = Some (Ok (Message b ps)).
Proof.
  intros Hne Hfind Hq Hfitb Hwf Hdelim Hcount Hfit.
  exists (dump_text iteration (Message b ps)). split.
  - by apply dump_is_dump_text.
  - unfold message_of_request.
    rewrite get_boundary_after_prefix by done.
    by rewrite parse_body_dump_text.
Qed.

(** X28. For a boundary without CR, LF, colon, space, semicolon, equals
    sign and double quote, serializing is safe for everything the parser
    returns: the parts parsed from any body are parsed back from the text
    that [dump()] writes for them, in whatever order the parameters are
    written. *)
Theorem parse_body_undoes_dump_for_plain_boundary (fuel : nat)
    (b body : string) (ps : list part) :
  plain b →
  Str.size body < SizeT.modulus →
  parse_body fuel b body = Some (Ok ps) →
  N.of_nat (length ps) < 2 ^ 31 →
  Str.size (dump_text iteration (Message b ps)) < SizeT.modulus →
  ∃ text,
    dump iteration (Message b ps) = Ok text
    ∧ parse_body (S (length ps)) b text = Some (Ok ps).
Proof. 
  exact (parse_dump_round_trip_plain iteration iteration_perm fuel b body ps).
Qed.

End Serialized.

Lemma parse_section_undoes_dump_part_witness :
  ∃ text,
    dump_part map_to_list
      (Message "X" [Part [Header ("A", "b") {[ "x" := "y" ]}] "hello"])
      (Z.of_nat 0) = Ok text
    ∧ parse_section text = Ok (Part [Header ("A", "b") {[ "x" := "y" ]}] "hello").
Proof.
  apply (parse_section_undoes_dump_part map_to_list (λ m, reflexivity _)
           (Message "X" [Part [Header ("A", "b") {[ "x" := "y" ]}] "hello"])
           0 (Part [Header ("A", "b") {[ "x" := "y" ]}] "hello")).
  - reflexivity.
  - by vm_compute.
  - split; [done|]. apply Forall_cons. split; [|constructor].
    split_and!; try (vm_compute; reflexivity).
    apply map_Forall_singleton. split_and!; vm_compute; reflexivity.
  - by vm_compute.
Defined.

Lemma dump_returns_parts_between_delimiters_witness :
  dump map_to_list (Message "X" [Part [Header ("A", "b") ∅] "hello"])
  = Ok (parts_text map_to_list (dd +:+ "X")
          [Part [Header ("A", "b") ∅] "hello"]
        +:+ (dd +:+ "X") +:+ dd +:+ crlf).
Proof.
  apply (dump_returns_parts_between_delimiters map_to_list
           (Message "X" [Part [Header ("A", "b") ∅] "hello"])).
  by vm_compute.
Defined.

Lemma parse_body_undoes_dump_witness :
  ∃ text,
    dump map_to_list
      (Message "X" [Part [Header ("A", "b") {[ "x" := "y" ]}] "hello"])
    = Ok text
    ∧ parse_body 2 "X" text
      = Some (Ok [Part [Header ("A", "b") {[ "x" := "y" ]}] "hello"]).
Proof.
  apply (parse_body_undoes_dump map_to_list (λ m, reflexivity _) "X"
           [Part [Header ("A", "b") {[ "x" := "y" ]}] "hello"]).
  - apply Forall_cons. split; [|constructor]. split; [done|].
    apply Forall_cons. split; [|constructor].
    split_and!; try (vm_compute; reflexivity).
    apply map_Forall_singleton. split_and!; vm_compute; reflexivity.
  - apply Forall_cons. split; [vm_compute; reflexivity | constructor].
  - by vm_compute.
  - by vm_compute.
Defined.

Lemma message_of_request_undoes_dump_witness :
  ∃ text,
    dump map_to_list
      (Message "X" [Part [Header ("A", "b") {[ "x" := "y" ]}] "hello"])
    = Ok text
    ∧ message_of_request 2
        ("multipart/form-data; " +:+ boundary_text +:+ "X") text
      = Some (Ok (Message "X"
                    [Part [Header ("A", "b") {[ "x" := "y" ]}] "hello"])).
Proof.
  apply (message_of_request_undoes_dump map_to_list (λ m, reflexivity _)
           "multipart/form-data; " "X"
           [Part [Header ("A", "b") {[ "x" := "y" ]}] "hello"]).
  - done.
  - by vm_compute.
  - by vm_compute.
  - by vm_compute.
  - apply Forall_cons. split; [|constructor]. split; [done|].
    apply Forall_cons. split; [|constructor].
    split_and!; try (vm_compute; reflexivity).
    apply map_Forall_singleton. split_and!; vm_compute; reflexivity.
  - apply Forall_cons. split; [vm_compute; reflexivity | constructor].
  - by vm_compute.
  - by vm_compute.
Defined.

Lemma parse_body_undoes_dump_for_plain_boundary_witness :
  ∃ text,
    dump map_to_list (Message "X" [Part [Header (CR, EmptyString) ∅] "ody"])
    = Ok text
    ∧ parse_body 2 "X" text
      = Some (Ok [Part [Header (CR, EmptyString) ∅] "ody"]).
Proof.
  apply (parse_body_undoes_dump_for_plain_boundary map_to_list
           (λ m, reflexivity _) 2 "X" scenario_B).
  - by repeat constructor.
  - by vm_compute.
  - vm_compute. reflexivity.
  - by vm_compute.
  - by vm_compute.
Defined.
